(** * Alignment engine of md_structurize: [merge_two_json_modify_english.py]

    A shallow embedding of the outline/content alignment engine
    ([find_alignment_points], [similar_text], [get_toc_window],
    [ContentMatcher.match_content_to_toc], [process_book_in_segments],
    [process_single_book], [process_all_books]) together with the lemmas
    that relate it to its natural-language specification.

    Conventions of the embedding.
    - Python [str] values are [string]s whose characters are read as the
      code points 0..255 (Latin-1); [lower], [split], [strip] and [int]
      follow CPython on that range.
    - Python [int]s that index lists are [nat] when the code can only
      produce non-negative values and [Z] otherwise.
    - Python [float] ratios [2.0 * m / t] are kept as exact rationals; the
      comparisons with the literals [0.9] and [0.8] agree with the rounded
      ones for every text shorter than 2^50 characters.
    - Exceptions are an explicit [Raise] result; the logger, the count of
      requests sent to the model and the files written are an explicit
      [World] threaded through the code. *)

From Stdlib Require Import List Arith Lia Bool ZArith QArith String Ascii.
From Stdlib Require Import Sorted Permutation.
Import ListNotations.

Set Implicit Arguments.

Close Scope Q_scope.
Close Scope Z_scope.
Open Scope nat_scope.

(* ================================================================= *)
(** ** Python text primitives *)

Module PyStr.

Open Scope string_scope.
Open Scope nat_scope.

  (** [str.isspace] on one character: 0x09-0x0D, 0x1C-0x1F, 0x20, 0x85, 0xA0. *)
Definition isspace (c : ascii) : bool :=
    let n := nat_of_ascii c in
    ((9 <=? n) && (n <=? 13)) || ((28 <=? n) && (n <=? 32))
    || (n =? 133) || (n =? 160).

  (** [str.lower] on one character: A-Z, and the Latin-1 capitals
      0xC0-0xDE except the multiplication sign 0xD7. *)
Definition lower_char (c : ascii) : ascii :=
    let n := nat_of_ascii c in
    if ((65 <=? n) && (n <=? 90))
       || ((192 <=? n) && (n <=? 222) && negb (n =? 215))
    then ascii_of_nat (n + 32) else c.

Fixpoint lower (s : string) : string :=
    match s with
    | EmptyString => EmptyString
    | String c s' => String (lower_char c) (lower s')
    end.

Definition is_empty (s : string) : bool :=
    match s with EmptyString => true | _ => false end.

  (** [s.split()]: maximal runs of non-whitespace characters. *)
Fixpoint split_ws (s cur : string) : list string :=
    match s with
    | EmptyString => if is_empty cur then [] else [cur]
    | String c s' =>
        if isspace c
        then (if is_empty cur then split_ws s' "" else cur :: split_ws s' "")
        else split_ws s' (cur ++ String c "")
    end.

Definition split (s : string) : list string := split_ws s "".

  (** [s.split(sep)] for a one-character separator: never empty. *)
Fixpoint split_on (sep : ascii) (s cur : string) : list string :=
    match s with
    | EmptyString => [cur]
    | String c s' =>
        if Ascii.eqb c sep then cur :: split_on sep s' ""
        else split_on sep s' (cur ++ String c "")
    end.

Fixpoint lstrip (s : string) : string :=
    match s with
    | EmptyString => EmptyString
    | String c s' => if isspace c then lstrip s' else s
    end.

Fixpoint rstrip (s : string) : string :=
    match s with
    | EmptyString => EmptyString
    | String c s' =>
        let r := rstrip s' in
        if isspace c && is_empty r then EmptyString else String c r
    end.

Definition strip (s : string) : string := rstrip (lstrip s).

Definition digit_val (c : ascii) : option Z :=
    let n := nat_of_ascii c in
    if (48 <=? n) && (n <=? 57) then Some (Z.of_nat (n - 48)) else None.

  (** Decimal digits with single underscores between digits (PEP 515). *)
Fixpoint digits (s : string) (acc : Z) (after_underscore : bool) : option Z :=
    match s with
    | EmptyString => if after_underscore then None else Some acc
    | String c s' =>
        match digit_val c with
        | Some d => digits s' (10 * acc + d)%Z false
        | None =>
            if Ascii.eqb c "_" && negb after_underscore
            then digits s' acc true else None
        end
    end.

Definition unsigned (s : string) : option Z :=
    match s with
    | EmptyString => None
    | String c _ =>
        match digit_val c with Some _ => digits s 0%Z false | None => None end
    end.

  (** [int(s)] in base 10; [None] stands for [ValueError].  The limit
      CPython puts on the number of digits is left out: a reply has at
      most 15 tokens. *)
Definition int (s : string) : option Z :=
    match strip s with
    | String "+" r => unsigned r
    | String "-" r => option_map Z.opp (unsigned r)
    | t => unsigned t
    end.

End PyStr.

(* ================================================================= *)
(** ** [difflib.SequenceMatcher(None, a, b)] of the Python standard library

    The matcher is created with [isjunk = None] and [autojunk = True]:
    the junk set is empty, so the two loops of [find_longest_match] that
    absorb junk never run, and only the "popular" purge of [__chain_b]
    is active. *)

Module Difflib.

Definition Match := (nat * nat * nat)%type.

Section Matcher.

Variables a b : list ascii.

Fixpoint count (x : ascii) (l : list ascii) : nat :=
      match l with
      | [] => 0
      | y :: l' => (if Ascii.eqb y x then 1 else 0) + count x l'
      end.

Fixpoint indices (x : ascii) (l : list ascii) (i : nat) : list nat :=
      match l with
      | [] => []
      | y :: l' =>
          if Ascii.eqb y x then i :: indices x l' (S i) else indices x l' (S i)
      end.

    (** [bpopular]: with 200 or more elements in [b], an element that
        occurs more than [n // 100 + 1] times. *)
Definition bpopular (x : ascii) : bool :=
      (200 <=? List.length b) && (List.length b / 100 + 1 <? count x b).

    (** [b2j.get(x, [])] after the purge. *)
Definition b2j (x : ascii) : list nat :=
      if bpopular x then [] else indices x b 0.

Definition b2j_at (i : nat) : list nat :=
      match nth_error a i with Some x => b2j x | None => [] end.

    (** [a[i] == b[j]] *)
Definition same_elt (i j : nat) : bool :=
      match nth_error a i, nth_error b j with
      | Some x, Some y => Ascii.eqb x y
      | _, _ => false
      end.

    (** [j2len.get(j-1, 0)]; the dictionary is a function that is 0 on
        absent keys (stored values are at least 1). *)
Definition j2lenget (j2len : nat -> nat) (j : nat) : nat :=
      match j with 0 => 0 | S j' => j2len j' end.

Definition store (d : nat -> nat) (j k : nat) : nat -> nat :=
      fun x => if x =? j then k else d x.

Definition improve (best : Match) (i j k : nat) : Match :=
      let '(_, _, bestsize) := best in
      if bestsize <? k then (i + 1 - k, j + 1 - k, k) else best.

    (** The inner loop [for j in b2j.get(a[i], nothing)]. *)
Fixpoint scan_row (js : list nat) (i blo bhi : nat)
             (j2len newj2len : nat -> nat) (best : Match)
      : (nat -> nat) * Match :=
      match js with
      | [] => (newj2len, best)
      | j :: js' =>
          if j <? blo then scan_row js' i blo bhi j2len newj2len best
          else if bhi <=? j then (newj2len, best)
          else
            let k := j2lenget j2len j + 1 in
            scan_row js' i blo bhi j2len (store newj2len j k)
                     (improve best i j k)
      end.

    (** The outer loop [for i in range(alo, ahi)]. *)
Fixpoint scan_rows (rows : list nat) (blo bhi : nat)
             (j2len : nat -> nat) (best : Match) : Match :=
      match rows with
      | [] => best
      | i :: rows' =>
          let '(newj2len, best') :=
            scan_row (b2j_at i) i blo bhi j2len (fun _ => 0) best in
          scan_rows rows' blo bhi newj2len best'
      end.

    (** [while besti > alo and bestj > blo and a[besti-1] == b[bestj-1]];
        [n] bounds the iterations by [besti]. *)
Fixpoint extend_left (n alo blo : nat) (m : Match) : Match :=
      match n with
      | 0 => m
      | S n' =>
          let '(besti, bestj, bestsize) := m in
          if (alo <? besti) && (blo <? bestj)
             && same_elt (besti - 1) (bestj - 1)
          then extend_left n' alo blo (besti - 1, bestj - 1, bestsize + 1)
          else m
      end.

    (** [while besti+bestsize < ahi and bestj+bestsize < bhi and
        a[besti+bestsize] == b[bestj+bestsize]]; [n] bounds the iterations
        by [ahi - (besti+bestsize)]. *)
Fixpoint extend_right (n ahi bhi : nat) (m : Match) : Match :=
      match n with
      | 0 => m
      | S n' =>
          let '(besti, bestj, bestsize) := m in
          if (besti + bestsize <? ahi) && (bestj + bestsize <? bhi)
             && same_elt (besti + bestsize) (bestj + bestsize)
          then extend_right n' ahi bhi (besti, bestj, bestsize + 1)
          else m
      end.

Definition find_longest_match (alo ahi blo bhi : nat) : Match :=
      let m0 := scan_rows (seq alo (ahi - alo)) blo bhi (fun _ => 0)
                          (alo, blo, 0) in
      let '(besti, _, _) := m0 in
      let m1 := extend_left besti alo blo m0 in
      let '(besti1, _, bestsize1) := m1 in
      extend_right (ahi - (besti1 + bestsize1)) ahi bhi m1.

Definition Range := (nat * nat * nat * nat)%type.

    (** Size of the work still queued: each range counts for twice its
        length in [a] plus one. *)
Fixpoint queue_weight (queue : list Range) : nat :=
      match queue with
      | [] => 0
      | (alo, ahi, _, _) :: q => 2 * (ahi - alo) + 1 + queue_weight q
      end.

    (** The loop [while queue:] of [get_matching_blocks]; the head of the
        list is the last element of the Python list ([queue.pop()]). *)
Fixpoint drain (fuel : nat) (queue : list Range)
             (matching_blocks : list Match) : list Match :=
      match fuel with
      | 0 => matching_blocks
      | S fuel' =>
          match queue with
          | [] => matching_blocks
          | (alo, ahi, blo, bhi) :: q =>
              let '(i, j, k) := find_longest_match alo ahi blo bhi in
              if k =? 0 then drain fuel' q matching_blocks
              else
                let q1 := if (alo <? i) && (blo <? j)
                          then (alo, i, blo, j) :: q else q in
                let q2 := if (i + k <? ahi) && (j + k <? bhi)
                          then (i + k, ahi, j + k, bhi) :: q1 else q1 in
                drain fuel' q2 (matching_blocks ++ [(i, j, k)])
          end
      end.

    (** The blocks found, before they are sorted and adjacent ones are
        merged (neither changes the sum of their sizes). *)
Definition get_matching_blocks : list Match :=
      let queue := [(0, List.length a, 0, List.length b)] in
      drain (queue_weight queue) queue [].

Definition matches : nat :=
      fold_right (fun '(_, _, k) acc => k + acc) 0 get_matching_blocks.

    (** [_calculate_ratio(matches, len(a) + len(b))] *)
Definition ratio : Q :=
      let total := List.length a + List.length b in
      if total =? 0 then 1%Q
      else Qmake (2 * Z.of_nat matches) (Pos.of_nat total).

End Matcher.

End Difflib.

(* ================================================================= *)
(** ** Data model *)

Open Scope string_scope.
Open Scope nat_scope.
Open Scope list_scope.

(** [class TocChunk]: it defines no [__eq__], so two chunks are equal
    exactly when they are the same object; [obj] is that identity. *)
Record TocChunk := mkToc {
  obj : nat;
  chapter : string;
  section : string
}.

(** [class ContentChunk] *)
Record ContentChunk := mkContent {
  subsection : string;
  content : string
}.

(** The merged dictionary [{"Chapter", "Section", "Subsection", "Content"}]. *)
Record MergedRecord := mkMerged {
  Chapter : string; Section : string;
  Subsection : string; Content : string
}.

(** [x > threshold] on ratios. *)
Definition gt (x threshold : Q) : bool := negb (Qle_bool x threshold).

(** [similar_text(text1, text2)] *)
Definition similar_text (text1 text2 : string) : Q :=
  Difflib.ratio (list_ascii_of_string (PyStr.lower text1))
                (list_ascii_of_string (PyStr.lower text2)).

(** [l[start:stop]] for non-negative bounds (Python clamps both to the
    length of the list). *)
Definition slice {A : Type} (l : list A) (start stop : nat) : list A :=
  firstn (stop - start) (skipn start l).

(* ================================================================= *)
(** ** [find_alignment_points] *)

(** The inner loop [for toc in toc_chunks] for one content chunk: [true]
    when it reaches [alignment_points.append(i); break]. *)
Fixpoint scan_toc (toc_chunks : list TocChunk) (content : ContentChunk) : bool :=
  match toc_chunks with
  | [] => false
  | toc :: rest =>
      if List.length (PyStr.split (section toc)) <=? 1
      then scan_toc rest content
      else if gt (similar_text (section toc) (subsection content)) (9 # 10)
           then true
           else scan_toc rest content
  end.

(** The outer loop [for i, content in enumerate(content_chunks)]. *)
Fixpoint scan_content (toc_chunks : list TocChunk)
         (content_chunks : list ContentChunk) (i : nat) : list nat :=
  match content_chunks with
  | [] => []
  | content :: rest =>
      if scan_toc toc_chunks content
      then i :: scan_content toc_chunks rest (S i)
      else scan_content toc_chunks rest (S i)
  end.

Definition find_alignment_points (toc_chunks : list TocChunk)
           (content_chunks : list ContentChunk) : list nat :=
  scan_content toc_chunks content_chunks 0.

(* ================================================================= *)
(** ** [get_toc_window] *)

Definition window_size : nat := 7.

Definition get_toc_window (toc_chunks : list TocChunk) (current_index : Z)
           (window_size : nat) : list TocChunk :=
  let start_idx := Z.to_nat (Z.max 0 (current_index - 2)) in
  let end_idx := Nat.min (List.length toc_chunks) (start_idx + window_size) in
  slice toc_chunks start_idx end_idx.

(* ================================================================= *)
(** ** Exceptions and the world outside the engine *)

(** [IndexError], [ValueError], and any other [Exception] (a failed
    request, a timeout, a reply without text). *)
Inductive exn := IndexError | ValueError | OtherException.

Inductive result (A : Type) :=
| Ok (a : A)
| Raise (e : exn).
Arguments Ok {A} a.
Arguments Raise {A} e.

Inductive level := ERROR | WARNING | INFO.

(** The two messages [match_content_to_toc] writes. *)
Inductive message :=
| invalid_number_format   (* the reply is not a list of numbers *)
| api_call_failed.        (* the request raised *)

Record World := mkWorld {
  requests : nat;                                   (* requests sent so far *)
  log : list (level * message);                     (* logger output *)
  files : list (string * list MergedRecord)         (* files written *)
}.

Definition M (A : Type) : Type := World -> result A * World.

Definition ret {A} (a : A) : M A := fun w => (Ok a, w).
Definition raise {A} (e : exn) : M A := fun w => (Raise e, w).
Definition bind {A B} (m : M A) (k : A -> M B) : M B :=
  fun w => match m w with
           | (Ok a, w') => k a w'
           | (Raise e, w') => (Raise e, w')
           end.
Definition lift {A} (r : result A) : M A := fun w => (r, w).

Notation "x <- m ;; k" := (bind m (fun x => k))
  (at level 61, m at next level, right associativity).

(** [self.logger.error(msg)] *)
Definition logger_error (msg : message) : M unit :=
  fun w => (Ok tt, mkWorld (requests w) (log w ++ [(ERROR, msg)]) (files w)).

(** What the model is asked: the numbered window and the text blocks the
    prompt is built from. *)
Record Request := mkRequest {
  options : list TocChunk;
  blocks : list ContentChunk
}.

(** Outcome of [await self.client.chat.completions.create(...)] followed
    by [response.choices[0].message.content]: either some exception, or
    the text of the reply. *)
Inductive Reply :=
| Fails
| Text (text : string).

(** The model is not a function of its prompt: the n-th request of a run
    gets the n-th outcome. *)
Definition Oracle := nat -> Request -> Reply.

Definition ask (oracle : Oracle) (req : Request) : M Reply :=
  fun w => (Ok (oracle (requests w) req),
            mkWorld (S (requests w)) (log w) (files w)).

(* ================================================================= *)
(** ** [ContentMatcher.match_content_to_toc] *)

(** [content_list[current_index + d]] when
    [current_index < len(content_list) - d]. *)
Definition lookahead (content_list : list ContentChunk) (current_index : nat)
           (d : nat) : list ContentChunk :=
  if (Z.of_nat current_index <? Z.of_nat (List.length content_list) - Z.of_nat d)%Z
  then match nth_error content_list (current_index + d) with
       | Some c => [c]
       | None => []
       end
  else [].

(** [[int(idx.strip()) - 1 for idx in text.strip().split(',')]];
    [None] is the [ValueError] of [int]. *)
Fixpoint parse_all (pieces : list string) : option (list Z) :=
  match pieces with
  | [] => Some []
  | idx :: rest =>
      match PyStr.int (PyStr.strip idx) with
      | None => None
      | Some n =>
          match parse_all rest with
          | None => None
          | Some ns => Some ((n - 1)%Z :: ns)
          end
      end
  end.

Definition parse_indices (text : string) : option (list Z) :=
  parse_all (PyStr.split_on "," (PyStr.strip text) "").

(** [toc_options[0]] *)
Definition first_option (toc_options : list TocChunk) : result TocChunk :=
  match toc_options with
  | [] => Raise IndexError
  | t :: _ => Ok t
  end.

(** The loop [for idx in indices] that fills [results]. *)
Fixpoint select (toc_options : list TocChunk) (indices : list Z)
  : result (list TocChunk) :=
  match indices with
  | [] => Ok []
  | idx :: rest =>
      let chosen :=
        if (0 <=? idx)%Z && (idx <? Z.of_nat (List.length toc_options))%Z
        then match nth_error toc_options (Z.to_nat idx) with
             | Some t => Ok t
             | None => Raise IndexError
             end
        else first_option toc_options in
      match chosen with
      | Raise e => Raise e
      | Ok t =>
          match select toc_options rest with
          | Raise e => Raise e
          | Ok ts => Ok (t :: ts)
          end
      end
  end.

(** [return [toc_options[0]] * len(chunks)] *)
Definition default_options (toc_options : list TocChunk)
           (chunks : list ContentChunk) : M (list TocChunk) :=
  t <- lift (first_option toc_options) ;;
  ret (repeat t (List.length chunks)).

(** The handler [except Exception as e]. *)
Definition on_exception (toc_options : list TocChunk)
           (chunks : list ContentChunk) : M (list TocChunk) :=
  _ <- logger_error api_call_failed ;;
  default_options toc_options chunks.

(** Run [body] under [except Exception]. *)
Definition try_except {A} (body : M A) (handler : M A) : M A :=
  fun w => match body w with
           | (Ok a, w') => (Ok a, w')
           | (Raise _, w') => handler w'
           end.

Definition match_content_to_toc (oracle : Oracle) (content : ContentChunk)
           (content_list : list ContentChunk) (current_index : nat)
           (toc_options : list TocChunk) : M (list TocChunk) :=
  let chunks := [content] ++ lookahead content_list current_index 1
                          ++ lookahead content_list current_index 2 in
  try_except
    (reply <- ask oracle (mkRequest toc_options chunks) ;;
     match reply with
     | Fails => raise OtherException
     | Text text =>
         match parse_indices text with
         | Some indices => lift (select toc_options indices)
         | None =>
             _ <- logger_error invalid_number_format ;;
             default_options toc_options chunks
         end
     end)
    (on_exception toc_options chunks).

(* ================================================================= *)
(** ** [process_book_in_segments] *)

(** The loop [for i, toc in enumerate(toc_chunks[current_toc_start:],
    current_toc_start)]: the first position whose section is more than
    0.8 similar to the subsection of [content_chunks[point]]. *)
Fixpoint locate (tocs : list TocChunk) (i : nat)
         (content_chunks : list ContentChunk) (point : nat)
  : result (option nat) :=
  match tocs with
  | [] => Ok None
  | toc :: rest =>
      match nth_error content_chunks point with
      | None => Raise IndexError
      | Some c =>
          if gt (similar_text (section toc) (subsection c)) (8 # 10)
          then Ok (Some i)
          else locate rest (S i) content_chunks point
      end
  end.

(** The four variables of the segmentation loop. *)
Record Segments := mkSegments {
  content_segments : list (nat * nat);
  toc_segments : list (list TocChunk);
  start : nat;
  current_toc_start : nat
}.

(** The loop [for point in alignment_points]. *)
Fixpoint split_at (toc_chunks : list TocChunk)
         (content_chunks : list ContentChunk) (alignment_points : list nat)
         (s : Segments) : result Segments :=
  match alignment_points with
  | [] => Ok s
  | point :: rest =>
      match locate (skipn (current_toc_start s) toc_chunks)
                   (current_toc_start s) content_chunks point with
      | Raise e => Raise e
      | Ok None => split_at toc_chunks content_chunks rest s
      | Ok (Some i) =>
          split_at toc_chunks content_chunks rest
            (mkSegments
               (content_segments s ++ [(start s, point)])
               (toc_segments s
                  ++ [slice toc_chunks (current_toc_start s) (i + 1)])
               point i)
      end
  end.

(** Lines 397-417: the segments, with the last one appended. *)
Definition build_segments (toc_chunks : list TocChunk)
           (content_chunks : list ContentChunk) (alignment_points : list nat)
  : result (list (nat * nat) * list (list TocChunk)) :=
  match split_at toc_chunks content_chunks alignment_points
                 (mkSegments [] [] 0 0) with
  | Raise e => Raise e
  | Ok s =>
      Ok (content_segments s ++ [(start s, List.length content_chunks)],
          toc_segments s ++ [skipn (current_toc_start s) toc_chunks])
  end.

(** [a == b] on [TocChunk]s. *)
Definition same_object (a b : TocChunk) : bool := obj a =? obj b.

(** [toc_segment.index(matched_toc)]; [None] is its [ValueError]. *)
Fixpoint index (toc_segment : list TocChunk) (matched_toc : TocChunk)
  : option nat :=
  match toc_segment with
  | [] => None
  | t :: rest =>
      if same_object t matched_toc then Some 0
      else option_map S (index rest matched_toc)
  end.

Definition merge (matched_toc : TocChunk) (content_chunk : ContentChunk)
  : MergedRecord :=
  mkMerged (chapter matched_toc) (section matched_toc)
           (subsection content_chunk) (content content_chunk).

(** [segment_content[i]] *)
Definition item (segment_content : list ContentChunk) (i : nat)
  : result ContentChunk :=
  match nth_error segment_content i with
  | Some c => Ok c
  | None => Raise IndexError
  end.

(** The loop [for i in range(len(segment_content))], over the indices
    still to visit; it returns [current_toc_index] and [final_results]
    as they are when the loop ends. *)
Fixpoint classify (oracle : Oracle) (segment_content : list ContentChunk)
         (toc_segment : list TocChunk) (todo : list nat)
         (current_toc_index : nat) (final_results : list MergedRecord)
  : M (nat * list MergedRecord) :=
  match todo with
  | [] => ret (current_toc_index, final_results)
  | i :: todo' =>
      let toc_window :=
        get_toc_window toc_segment (Z.of_nat current_toc_index) window_size in
      content_chunk <- lift (item segment_content i) ;;
      matched_tocs <- match_content_to_toc oracle content_chunk
                        segment_content i toc_window ;;
      match matched_tocs with
      | [] =>
          classify oracle segment_content toc_segment todo'
                   current_toc_index final_results
      | matched_toc :: _ =>
          let final_results' :=
            final_results ++ [merge matched_toc content_chunk] in
          match index toc_segment matched_toc with
          | Some matched_index =>
              classify oracle segment_content toc_segment todo'
                       matched_index final_results'
          | None =>
              classify oracle segment_content toc_segment todo'
                       current_toc_index final_results'
          end
      end
  end.

(** The loop [for (start, end), toc_segment in zip(...)]. *)
Fixpoint process_segments (oracle : Oracle)
         (content_chunks : list ContentChunk)
         (segments : list ((nat * nat) * list TocChunk))
         (final_results : list MergedRecord) : M (list MergedRecord) :=
  match segments with
  | [] => ret final_results
  | ((start, stop), toc_segment) :: rest =>
      let segment_content := slice content_chunks start stop in
      r <- classify oracle segment_content toc_segment
             (seq 0 (List.length segment_content)) 0 final_results ;;
      process_segments oracle content_chunks rest (snd r)
  end.

Definition process_book_in_segments (oracle : Oracle)
           (toc_chunks : list TocChunk) (content_chunks : list ContentChunk)
  : M (list MergedRecord) :=
  let alignment_points := find_alignment_points toc_chunks content_chunks in
  match alignment_points with
  | [] => ret []
  | _ :: _ =>
      segs <- lift (build_segments toc_chunks content_chunks
                                   alignment_points) ;;
      process_segments oracle content_chunks
                       (combine (fst segs) (snd segs)) []
  end.

(* ================================================================= *)
(** ** [process_single_book] and [process_all_books] *)

Definition is_nil {A} (l : list A) : bool :=
  match l with [] => true | _ => false end.

(** [json.dump(merged_results, f)] into the output file of the book. *)
Definition write_output (toc_path : string)
           (merged_results : list MergedRecord) : M string :=
  fun w =>
    let output_path := ("merged_" ++ toc_path)%string in
    (Ok output_path,
     mkWorld (requests w) (log w)
             (files w ++ [(output_path, merged_results)])).

(** The body of the [try] of [process_single_book], after the two files
    are loaded. *)
Definition single_book_body (oracle : Oracle) (toc_path : string)
           (toc_chunks : list TocChunk) (content_chunks : list ContentChunk)
           (api_key : string) : M string :=
  if is_nil toc_chunks then raise ValueError
  else if is_nil content_chunks then raise ValueError
  else if PyStr.is_empty api_key then raise ValueError
  else
    merged_results <- process_book_in_segments oracle toc_chunks
                        content_chunks ;;
    if is_nil merged_results then raise ValueError
    else write_output toc_path merged_results.

(** [process_single_book]: [None] after any exception. *)
Definition process_single_book (oracle : Oracle) (toc_path : string)
           (toc_chunks : list TocChunk) (content_chunks : list ContentChunk)
           (api_key : string) : World -> option string * World :=
  fun w =>
    match single_book_body oracle toc_path toc_chunks content_chunks
                           api_key w with
    | (Ok output_path, w') => (Some output_path, w')
    | (Raise _, w') => (None, w')
    end.

(** One document of a batch. *)
Record Book := mkBook {
  book_oracle : Oracle;
  toc_path : string;
  book_toc : list TocChunk;
  book_content : list ContentChunk
}.

(** [asyncio.gather] over the books: the documents share nothing but
    the logger and the output directory, so the tasks are run one after
    the other here. *)
Fixpoint gather (api_key : string) (books : list Book)
  : World -> list (option string) * World :=
  fun w =>
    match books with
    | [] => ([], w)
    | bk :: rest =>
        let '(r, w1) := process_single_book (book_oracle bk) (toc_path bk)
                          (book_toc bk) (book_content bk) api_key w in
        let '(rs, w2) := gather api_key rest w1 in
        (r :: rs, w2)
    end.

(** The counting loop: [(successful, failed)]. *)
Fixpoint tally (results : list (option string)) : nat * nat :=
  match results with
  | [] => (0, 0)
  | None :: rest => let '(s, f) := tally rest in (s, S f)
  | Some _ :: rest => let '(s, f) := tally rest in (S s, f)
  end.

Definition process_all_books (api_key : string) (books : list Book)
  : World -> (nat * nat) * World :=
  fun w => let '(results, w') := gather api_key books w in (tally results, w').

(* ================================================================= *)
(** ** The scenario of the specification, run on the model *)

Module Scenario.

Definition outline : list TocChunk :=
    [ mkToc 0 "Ch1" "Intro";
      mkToc 1 "Ch1" "Cell Structure";
      mkToc 2 "Ch2" "Genetics" ].

Definition chunks : list ContentChunk :=
    [ mkContent "Cell Structure" "..."; mkContent "DNA basics" "..." ].

Definition w0 : World := mkWorld 0 [] [].

  (** A model that answers "2,3" to every request. *)
Definition oracle : Oracle := fun _ _ => Text "2,3".

End Scenario.


(* ================================================================= *)
(** ** Auxiliary notions used to state the properties *)

Module DifflibSpec.

Section Run.

Variable a : list ascii.
Variable lo : nat.

    (** Length of the run of elements of [a] that are not popular, ending
        just before position [m] and starting no earlier than [lo]. *)
Fixpoint run (m : nat) : nat :=
      match m with
      | 0 => 0
      | S m' =>
          match nth_error a m' with
          | Some x =>
              if (lo <=? m') && negb (Difflib.bpopular a x)
              then S (run m') else 0
          | None => 0
          end
      end.

(** What holds of the dictionary left by the rows below [i], when the
    matcher compares [a] with itself. *)
Definition prev_ok (i : nat) (j2len : nat -> nat) : Prop :=
  (forall j, Difflib.j2lenget j2len j <= run (Nat.min i j))
  /\ Difflib.j2lenget j2len i = run i.

(** What holds of the best block once the rows below [i] are done. *)
Definition best_ok (i : nat) (m : Difflib.Match) : Prop :=
  let '(bi, bj, bs) := m in
  bi = bj /\ lo <= bi /\ bi + bs <= i /\ forall m, m <= i -> run m <= bs.

End Run.

(** The block lies in rows [alo] to [hi] of [a]. *)
Definition within (alo hi : nat) (m : Difflib.Match) : Prop :=
  let '(bi, _, bs) := m in alo <= bi /\ bi + bs <= hi.

(** Every queued range has its bounds in [a] in order. *)
Definition queue_ok (queue : list Difflib.Range) : Prop :=
  Forall (fun '(alo, ahi, _, _) => alo <= ahi) queue.

End DifflibSpec.

(** *** The window of the specification *)

Module WindowSpec.

Definition B : nat := 2.
Definition W : nat := 7.

  (** [outline[max(0, cursor-B) : max(0, cursor-B)+W]], the slice being
      clamped to the bounds of [outline]. *)
Definition window (outline : list TocChunk) (cursor : Z) : list TocChunk :=
    let first := Z.to_nat (Z.max 0 (cursor - Z.of_nat B)) in
    slice outline first (first + W).

  (** The reading of the specification under which a non-empty outline
      slice gives a non-empty window at every cursor value. *)
Definition never_empty : Prop :=
    forall (outline : list TocChunk) (cursor : Z),
      outline <> [] -> 1 <= List.length (get_toc_window outline cursor window_size).

End WindowSpec.

(** *** Anchors *)

(** The two tests an outline entry must pass against a content chunk:
    more than one word in its section, and a similarity above 0.9. *)
Definition anchors (toc : TocChunk) (c : ContentChunk) : bool :=
  (1 <? List.length (PyStr.split (section toc)))
  && gt (similar_text (section toc) (subsection c)) (9 # 10).

Module AnchorFinderSpec.

  (** First outline position, counted from [pos], whose entry passes
      the two tests. *)
Fixpoint first_match (entries : list TocChunk) (pos : nat)
           (c : ContentChunk) : option nat :=
    match entries with
    | [] => None
    | t :: rest =>
        if anchors t c then Some pos else first_match rest (S pos) c
    end.

  (** [findAnchors] as the specification words it: the scan for a chunk
      starts at the outline position of the previous anchor and never
      looks at earlier entries. *)
Fixpoint scan_from (outline : list TocChunk) (chunks : list ContentChunk)
           (i previous : nat) : list (nat * nat) :=
    match chunks with
    | [] => []
    | c :: rest =>
        match first_match (skipn previous outline) previous c with
        | Some p => (i, p) :: scan_from outline rest (S i) p
        | None => scan_from outline rest (S i) previous
        end
    end.

Definition findAnchors (outline : list TocChunk)
             (chunks : list ContentChunk) : list (nat * nat) :=
    scan_from outline chunks 0 0.

  (** An outline whose entries match the content in the reverse order. *)
Definition outline : list TocChunk :=
    [ mkToc 0 "Ch1" "Cell Structure"; mkToc 1 "Ch2" "Gene Expression" ].

Definition chunks : list ContentChunk :=
    [ mkContent "Gene Expression" "..."; mkContent "Cell Structure" "..." ].

End AnchorFinderSpec.

(** Content index [i] holds a chunk that some outline entry anchors. *)
Definition anchored (toc_chunks : list TocChunk)
           (content_chunks : list ContentChunk) (i : nat) : bool :=
  match nth_error content_chunks i with
  | Some c => existsb (fun t => anchors t c) toc_chunks
  | None => false
  end.

(** *** Fallback of the classification *)

Module FallbackSpec.

  (** The blocks sent with a request: the current chunk and up to two
      chunks that follow it. *)
Definition sent_blocks (content : ContentChunk)
             (content_list : list ContentChunk) (current_index : nat)
    : list ContentChunk :=
    [content] ++ lookahead content_list current_index 1
              ++ lookahead content_list current_index 2.

  (** The option an index stands for: [window[idx]] inside the window,
      the first option otherwise. *)
Definition choose (window : list TocChunk) (first : TocChunk) (idx : Z)
    : TocChunk :=
    if (0 <=? idx)%Z && (idx <? Z.of_nat (List.length window))%Z
    then nth (Z.to_nat idx) window first
    else first.

Definition with_log (w : World) (entries : list (level * message)) : World :=
    mkWorld (S (requests w)) (log w ++ entries) (files w).

  (** The three failures of a classification: the request raises, the
      reply is not a list of integers, or the index given for the current
      chunk is outside the window. *)
Definition failure (reply : Reply) (window : list TocChunk) : Prop :=
    match reply with
    | Fails => True
    | Text text =>
        match parse_indices text with
        | None => True
        | Some indices =>
            match indices with
            | idx :: _ =>
                (idx < 0)%Z \/ (Z.of_nat (List.length window) <= idx)%Z
            | [] => False
            end
        end
    end.

  (** The run wrote exactly one more log entry, a warning. *)
Definition warned (w w' : World) : Prop :=
    exists m, log w' = log w ++ [(WARNING, m)].

  (** C5 as the specification words it. *)
Definition recovers_with_warning : Prop :=
    forall oracle content content_list current_index first rest w,
      let window := first :: rest in
      let chunks := sent_blocks content content_list current_index in
      failure (oracle (requests w) (mkRequest window chunks)) window ->
      let '(r, w') := match_content_to_toc oracle content content_list
                        current_index window w in
      (exists others, r = Ok (first :: others)) /\ warned w w'.

End FallbackSpec.

(** *** Records *)

(** The content chunk a merged record was made from. *)
Definition chunk_of (r : MergedRecord) : ContentChunk :=
  mkContent (Subsection r) (Content r).

(** The record carries the labels of an entry of [outline]. *)
Definition labelled_from (outline : list TocChunk) (r : MergedRecord) : Prop :=
  exists t, In t outline /\ Chapter r = chapter t /\ Section r = section t.

(** *** Segments *)

Module SegmenterSpec.

  (** [segments] are half-open ranges that follow one another from [from]
      to [to]: each starts where the previous one ends and none is
      reversed. *)
Fixpoint consecutive (from : nat) (segments : list (nat * nat)) (to : nat)
    : Prop :=
    match segments with
    | [] => from = to
    | (s, e) :: rest => s = from /\ s <= e /\ consecutive e rest to
    end.

  (** The anchors that are found again in the outline, each with its
      outline index; the search for an anchor starts at the index of the
      previous one that was found. *)
Fixpoint found (outline : list TocChunk) (chunks : list ContentChunk)
           (points : list nat) (previous : nat) : list (nat * nat) :=
    match points with
    | [] => []
    | p :: rest =>
        match locate (skipn previous outline) previous chunks p with
        | Ok (Some i) => (p, i) :: found outline chunks rest i
        | _ => found outline chunks rest previous
        end
    end.

  (** Content ranges cut at [points]: from [from] to the first point,
      between consecutive points, from the last point to [to]. *)
Fixpoint ranges (from : nat) (points : list nat) (to : nat)
    : list (nat * nat) :=
    match points with
    | [] => [(from, to)]
    | p :: rest => (from, p) :: ranges p rest to
    end.

  (** Outline slices cut at the outline indices [idxs]: from [previous]
      through the first index inclusive, from each index through the next
      one inclusive, from the last index to the end. *)
Fixpoint outline_slices (outline : list TocChunk) (previous : nat)
           (idxs : list nat) : list (list TocChunk) :=
    match idxs with
    | [] => [skipn previous outline]
    | i :: rest =>
        slice outline previous (i + 1) :: outline_slices outline i rest
    end.

  (** An outline and a content where the second anchor is not found
      again: its entry lies before the entry of the first anchor. *)
Definition outline : list TocChunk :=
    [ mkToc 0 "Ch1" "Cell Structure"; mkToc 1 "Ch2" "Gene Expression" ].

Definition chunks : list ContentChunk :=
    [ mkContent "Preface" "..."; mkContent "Gene Expression" "...";
      mkContent "Cell Structure" "..."; mkContent "Summary" "..." ].

End SegmenterSpec.

(* ================================================================= *)
(** ** Further notions: sizes of matching blocks *)

Module BlockSpec.

(** [sum(triple[-1] for triple in blocks)] *)
Definition total (blocks : list Difflib.Match) : nat :=
  fold_right (fun '(_, _, k) acc => k + acc) 0 blocks.

(** The block lies in columns [blo] to [hi] of [b]. *)
Definition within_b (blo hi : nat) (m : Difflib.Match) : Prop :=
  let '(_, bj, bs) := m in blo <= bj /\ bj + bs <= hi.

(** Elements of [a], and of [b], still covered by the queued ranges. *)
Fixpoint rows (queue : list Difflib.Range) : nat :=
  match queue with
  | [] => 0
  | (alo, ahi, _, _) :: q => (ahi - alo) + rows q
  end.

Fixpoint columns (queue : list Difflib.Range) : nat :=
  match queue with
  | [] => 0
  | (_, _, blo, bhi) :: q => (bhi - blo) + columns q
  end.

(** Every queued range has its bounds in order, in [a] and in [b]. *)
Definition ranges_ok (queue : list Difflib.Range) : Prop :=
  Forall (fun '(alo, ahi, blo, bhi) => alo <= ahi /\ blo <= bhi) queue.

End BlockSpec.

(* ================================================================= *)
(** ** Further notions: runs of the engine *)

Module EngineSpec.

(** Every classification fails: the request raises, the reply is not a
    list of integers, or its first index is outside the window. *)
Definition always_fails (oracle : Oracle) : Prop :=
  forall n req, FallbackSpec.failure (oracle n req) (options req).

(** [w'] has the log of [w] followed by at most [n] entries, all at
    level ERROR. *)
Definition logged_errors (w w' : World) (n : nat) : Prop :=
  exists entries,
    log w' = log w ++ entries
    /\ Forall (fun e => fst e = ERROR) entries
    /\ List.length entries <= n.


(** The record has the labels of the outline entry [t]. *)
Definition labelled (t : TocChunk) (r : MergedRecord) : Prop :=
  Chapter r = chapter t /\ Section r = section t.

End EngineSpec.

(* ================================================================= *)
(** ** [load_toc], [load_content], [remove_circular_refs] *)

(** What [json.load] returns.  Of a float only whether it is zero is
    kept (nothing else is looked at); the entries of an object are in
    insertion order and the first entry of a key is the one that counts. *)
#[local] Unset Elimination Schemes.
Inductive json :=
| JNull
| JBool (b : bool)
| JInt (n : Z)
| JFloat (zero : bool)
| JStr (s : string)
| JList (items : list json)
| JDict (entries : list (string * json)).
#[local] Set Elimination Schemes.

(** [bool(v)] *)
Definition truthy (v : json) : bool :=
  match v with
  | JNull => false
  | JBool b => b
  | JInt n => negb (n =? 0)%Z
  | JFloat zero => negb zero
  | JStr s => negb (PyStr.is_empty s)
  | JList items => negb (is_nil items)
  | JDict entries => negb (is_nil entries)
  end.

(** [key in d] and [d[key]], as an option. *)
Fixpoint lookup (key : string) (entries : list (string * json))
  : option json :=
  match entries with
  | [] => None
  | (k, v) :: rest => if String.eqb k key then Some v else lookup key rest
  end.

(** [d.get(key, default)] *)
Definition get (entries : list (string * json)) (key : string)
           (default : json) : json :=
  match lookup key entries with
  | Some v => v
  | None => default
  end.

(** The values a [for] loop over [v] visits: the items of a list, the
    keys of an object, the characters of a string; anything else is not
    iterable ([TypeError]). *)
Definition iterate (v : json) : result (list json) :=
  match v with
  | JList items => Ok items
  | JDict entries => Ok (map (fun kv => JStr (fst kv)) entries)
  | JStr s => Ok (map (fun c => JStr (String c "")) (list_ascii_of_string s))
  | _ => Raise OtherException
  end.

(** [TocChunk(chapter, section_title)] and [ContentChunk(subsection,
    content)] as the loaders build them: the fields hold whatever the
    file holds. *)
Record LoadedToc := mkLoadedToc {
  loaded_chapter : json;
  loaded_section : json
}.

Record LoadedContent := mkLoadedContent {
  loaded_subsection : json;
  loaded_content : json
}.

(** The loop [for section in sections] of [load_toc]; [section.get]
    exists on objects only ([AttributeError] otherwise). *)
Fixpoint load_toc_loop (sections : list json) : result (list LoadedToc) :=
  match sections with
  | [] => Ok []
  | JDict entries :: rest =>
      match load_toc_loop rest with
      | Ok chunks =>
          Ok (mkLoadedToc (get entries "Chapter" (JStr ""))
                          (get entries "Section" (JStr "")) :: chunks)
      | Raise e => Raise e
      end
  | _ :: _ => Raise OtherException
  end.

Definition load_toc (data : json) : result (list LoadedToc) :=
  let sections :=
    match data with
    | JDict entries =>
        match lookup "sections" entries with
        | Some v => v
        | None => data
        end
    | _ => data
    end in
  match iterate sections with
  | Ok items => load_toc_loop items
  | Raise e => Raise e
  end.

(** The loop [for item in sections] of [load_content]. *)
Fixpoint load_content_loop (sections : list json) : list LoadedContent :=
  match sections with
  | [] => []
  | JDict entries :: rest =>
      let subsection := get entries "Subsection" JNull in
      let content := get entries "Content" JNull in
      if truthy subsection && truthy content
      then mkLoadedContent subsection content :: load_content_loop rest
      else load_content_loop rest
  | _ :: rest => load_content_loop rest
  end.

Definition load_content (data : json) : result (list LoadedContent) :=
  let sections :=
    match data with
    | JDict entries =>
        match lookup "Subsections" entries with
        | Some v => v
        | None =>
            match lookup "sections" entries with
            | Some v => v
            | None => JList [data]
            end
        end
    | _ => data
    end in
  match iterate sections with
  | Ok items => Ok (load_content_loop items)
  | Raise e => Raise e
  end.

(** [remove_circular_refs] *)
Fixpoint remove_circular_refs (data : json) : json :=
  match data with
  | JDict entries =>
      JDict (map (fun '(k, v) => (k, remove_circular_refs v)) entries)
  | JList items => JList (map remove_circular_refs items)
  | _ => data
  end.

(** The item is an object whose two fields are present and true. *)
Definition complete_item (item : json) (c : LoadedContent) : Prop :=
  exists entries,
    item = JDict entries
    /\ lookup "Subsection" entries = Some (loaded_subsection c)
    /\ lookup "Content" entries = Some (loaded_content c)
    /\ truthy (loaded_subsection c) = true
    /\ truthy (loaded_content c) = true.

(** An induction principle that goes through the items of lists and the
    values of objects. *)
Section JsonInduction.

Variable P : json -> Prop.
Hypothesis Hnull : P JNull.
Hypothesis Hbool : forall b, P (JBool b).
Hypothesis Hint : forall n, P (JInt n).
Hypothesis Hfloat : forall z, P (JFloat z).
Hypothesis Hstr : forall s, P (JStr s).
Hypothesis Hlist : forall items, Forall P items -> P (JList items).
Hypothesis Hdict :
  forall entries, Forall (fun kv => P (snd kv)) entries -> P (JDict entries).

Fixpoint json_induction (v : json) : P v :=
  match v with
  | JNull => Hnull
  | JBool b => Hbool b
  | JInt n => Hint n
  | JFloat z => Hfloat z
  | JStr s => Hstr s
  | JList items =>
      Hlist
        ((fix go (l : list json) : Forall P l :=
            match l with
            | [] => Forall_nil P
            | x :: l' => @Forall_cons _ P x l' (json_induction x) (go l')
            end) items)
  | JDict entries =>
      Hdict
        ((fix go (l : list (string * json))
            : Forall (fun kv => P (snd kv)) l :=
            match l with
            | [] => Forall_nil _
            | (k, x) :: l' =>
                @Forall_cons _ (fun kv => P (snd kv)) (k, x) l'
                             (json_induction x) (go l')
            end) entries)
  end.

End JsonInduction.

(* ================================================================= *)
(** ** [get_matching_files] *)

Module Paths.










End Paths.

(** The outline chunk [load_toc] builds from an item: the item is an
    object, and a field that is missing is the empty string. *)
Definition toc_of_item (item : json) (c : LoadedToc) : Prop :=
  exists entries,
    item = JDict entries
    /\ loaded_chapter c = get entries "Chapter" (JStr "")
    /\ loaded_section c = get entries "Section" (JStr "").

Definition is_object (item : json) : bool :=
  match item with JDict _ => true | _ => false end.
(* ================================================================= *)
(** * Properties *)

(** ** The scenario, evaluated *)

Example scenario_anchors :
  find_alignment_points Scenario.outline Scenario.chunks = [0].
Proof. vm_compute. reflexivity. Qed.

Example scenario_segments :
  build_segments Scenario.outline Scenario.chunks [0]
  = Ok ([(0, 0); (0, 2)],
        [firstn 2 Scenario.outline; skipn 1 Scenario.outline]).
Proof. vm_compute. reflexivity. Qed.

Example scenario_records :
  fst (process_book_in_segments Scenario.oracle Scenario.outline
         Scenario.chunks Scenario.w0)
  = Ok [ mkMerged "Ch2" "Genetics" "Cell Structure" "...";
         mkMerged "Ch2" "Genetics" "DNA basics" "..." ].
Proof. vm_compute. reflexivity. Qed.

(* ================================================================= *)
(** ** The matcher on two equal sequences *)

Module DifflibFacts.

Import Difflib DifflibSpec.

Lemma indices_In (x : ascii) (l : list ascii) :
    forall i0 j,
      In j (indices x l i0) <-> i0 <= j /\ nth_error l (j - i0) = Some x.
  Proof.
    induction l as [|y l IH]; intros i0 j; simpl.
    - split; [tauto|]. intros [_ H]. destruct (j - i0); discriminate.
    - destruct (Ascii.eqb_spec y x) as [->|Hne]; simpl; rewrite ?IH.
      + split.
        * intros [<- | [Hle H]].
          { split; [lia|]. rewrite Nat.sub_diag. reflexivity. }
          split; [lia|]. replace (j - i0) with (S (j - S i0)) by lia. exact H.
        * intros [Hle H]. destruct (Nat.eq_dec i0 j) as [->|Hn]; [now left|right].
          split; [lia|].
          replace (j - i0) with (S (j - S i0)) in H by lia. exact H.
      + split.
        * intros [Hle H]. split; [lia|].
          replace (j - i0) with (S (j - S i0)) by lia. exact H.
        * intros [Hle H]. destruct (Nat.eq_dec i0 j) as [->|Hn].
          { rewrite Nat.sub_diag in H. simpl in H. congruence. }
          split; [lia|].
          replace (j - i0) with (S (j - S i0)) in H by lia. exact H.
  Qed.

Lemma indices_sorted (x : ascii) (l : list ascii) :
    forall i0, StronglySorted lt (indices x l i0).
  Proof.
    induction l as [|y l IH]; intros i0; simpl; [constructor|].
    destruct (Ascii.eqb y x); [|apply IH].
    constructor; [apply IH|].
    apply Forall_forall. intros j Hj. apply indices_In in Hj. lia.
  Qed.

Lemma same_elt_diag (a : list ascii) (k : nat) :
    k < List.length a -> same_elt a a k k = true.
  Proof.
    intros Hk. unfold same_elt.
    destruct (nth_error a k) eqn:E.
    - apply Ascii.eqb_refl.
    - apply nth_error_None in E. lia.
  Qed.

Section Diagonal.

Variable a : list ascii.
Variables lo hi : nat.
Hypothesis Hhi : hi <= List.length a.

Local Abbreviation run := (DifflibSpec.run a lo).
Local Abbreviation prev_ok := (DifflibSpec.prev_ok a lo).
Local Abbreviation best_ok := (DifflibSpec.best_ok a lo).

Lemma run_le : forall m, run m <= m - lo.
    Proof.
      induction m as [|m IH]; cbn [DifflibSpec.run]; [lia|].
      destruct (nth_error a m); [|lia].
      destruct (lo <=? m) eqn:E; cbn [andb]; [|lia].
      apply Nat.leb_le in E.
      destruct (negb _); lia.
    Qed.

Lemma run_S (m : nat) (x : ascii) :
      lo <= m -> nth_error a m = Some x -> bpopular a x = false ->
      run (S m) = S (run m).
    Proof.
      intros Hm Hx Hp. simpl. rewrite Hx, Hp.
      apply Nat.leb_le in Hm. rewrite Hm. reflexivity.
    Qed.

Lemma scan_row_diag (i : nat) (x : ascii) (j2len : nat -> nat) :
      lo <= i -> i < hi -> nth_error a i = Some x -> bpopular a x = false ->
      prev_ok i j2len ->
      forall js nj bi bs,
        StronglySorted lt js ->
        (forall j, In j js -> nth_error a j = Some x) ->
        lo <= bi -> bi + bs <= S i ->
        (forall m, m <= i -> run m <= bs) ->
        (forall j, nj j <= run (S (Nat.min i j))) ->
        (~ In i js -> run (S i) <= bs /\ nj i = run (S i)) ->
        let '(nj', best') := scan_row js i lo hi j2len nj (bi, bi, bs) in
        best_ok (S i) best' /\ prev_ok (S i) nj'.
    Proof.
      intros Hlo Hlt Hx Hp [Hprev Hprev_i].
      assert (Hfinal : forall nj bi bs,
                 lo <= bi -> bi + bs <= S i ->
                 (forall m, m <= i -> run m <= bs) ->
                 (forall j, nj j <= run (S (Nat.min i j))) ->
                 run (S i) <= bs -> nj i = run (S i) ->
                 best_ok (S i) (bi, bi, bs) /\ prev_ok (S i) nj).
      { intros nj bi bs H1 H2 H3 H4 H5 H6. split.
        - repeat split; auto.
          intros m Hm. destruct (Nat.eq_dec m (S i)) as [->|]; [auto|].
          apply H3. lia.
        - split; [|exact H6].
          intros [|j]; simpl; [lia|]. apply H4. }
      induction js as [|j js IH]; intros nj bi bs Hs Hin Hbi Hsum Hbest Hnj Hdone.
      - simpl. destruct Hdone as [H5 H6]; [tauto|]. now apply Hfinal.
      - simpl.
        assert (Hs' : StronglySorted lt js) by (now inversion Hs).
        assert (Hall : Forall (lt j) js) by (now inversion Hs).
        rewrite Forall_forall in Hall.
        assert (Hin' : forall j', In j' js -> nth_error a j' = Some x)
          by (intros; apply Hin; now right).
        destruct (j <? lo) eqn:Ejlo.
        + apply Nat.ltb_lt in Ejlo.
          apply IH; auto.
          intros Hni. apply Hdone. intros [->|]; [lia|tauto].
        + apply Nat.ltb_ge in Ejlo.
          destruct (hi <=? j) eqn:Ejhi.
          * apply Nat.leb_le in Ejhi.
            destruct Hdone as [H5 H6].
            { intros [->|Hi]; [lia|]. apply Hall in Hi. lia. }
            now apply Hfinal.
          * apply Nat.leb_gt in Ejhi.
            assert (Hxj : nth_error a j = Some x) by (apply Hin; now left).
            destruct (Nat.lt_trichotomy j i) as [Hji | [-> | Hji]].
            -- (* below the diagonal *)
               assert (Hk : j2lenget j2len j + 1 <= bs).
               { specialize (Hprev j). rewrite Nat.min_r in Hprev by lia.
                 pose proof (run_S Ejlo Hxj Hp) as HS.
                 specialize (Hbest (S j) ltac:(lia)). lia. }
               unfold improve.
               replace (bs <? j2lenget j2len j + 1) with false
                 by (symmetry; apply Nat.ltb_ge; lia).
               apply IH; auto.
               ++ intros j'. unfold store.
                  destruct (j' =? j) eqn:E; [|apply Hnj].
                  apply Nat.eqb_eq in E. subst j'.
                  rewrite Nat.min_r by lia.
                  specialize (Hprev j). rewrite Nat.min_r in Hprev by lia.
                  rewrite (run_S Ejlo Hxj Hp). lia.
               ++ intros Hni. destruct Hdone as [H5 H6].
                  { intros [->|]; [lia|tauto]. }
                  split; [exact H5|]. unfold store.
                  replace (i =? j) with false
                    by (symmetry; apply Nat.eqb_neq; lia).
                  exact H6.
            -- (* on the diagonal *)
               assert (Hk : j2lenget j2len i + 1 = run (S i)).
               { rewrite (run_S Hlo Hx Hp). lia. }
               pose proof (run_le (S i)) as Hrl.
               unfold improve. rewrite Hk.
               destruct (bs <? run (S i)) eqn:E.
               ++ apply Nat.ltb_lt in E.
                  replace (i + 1 - run (S i)) with (S i - run (S i)) by lia.
                  apply IH; auto; try lia.
                  ** intros m Hm. specialize (Hbest m Hm). lia.
                  ** intros j'. unfold store.
                     destruct (j' =? i) eqn:E'; [|apply Hnj].
                     apply Nat.eqb_eq in E'. subst j'.
                     rewrite Nat.min_id. lia.
                  ** intros _. split; [lia|]. unfold store.
                     now rewrite Nat.eqb_refl.
               ++ apply Nat.ltb_ge in E.
                  apply IH; auto.
                  ** intros j'. unfold store.
                     destruct (j' =? i) eqn:E'; [|apply Hnj].
                     apply Nat.eqb_eq in E'. subst j'.
                     rewrite Nat.min_id. lia.
                  ** intros _. split; [lia|]. unfold store.
                     now rewrite Nat.eqb_refl.
            -- (* above the diagonal *)
               destruct Hdone as [H5 H6].
               { intros [->|Hi]; [lia|]. apply Hall in Hi. lia. }
               assert (Hk : j2lenget j2len j + 1 <= bs).
               { specialize (Hprev j). rewrite Nat.min_l in Hprev by lia.
                 rewrite (run_S Hlo Hx Hp) in H5. lia. }
               unfold improve.
               replace (bs <? j2lenget j2len j + 1) with false
                 by (symmetry; apply Nat.ltb_ge; lia).
               apply IH; auto.
               ++ intros j'. unfold store.
                  destruct (j' =? j) eqn:E; [|apply Hnj].
                  apply Nat.eqb_eq in E. subst j'.
                  rewrite Nat.min_l by lia.
                  specialize (Hprev j). rewrite Nat.min_l in Hprev by lia.
                  rewrite (run_S Hlo Hx Hp). lia.
               ++ intros _. split; [exact H5|]. unfold store.
                  replace (i =? j) with false
                    by (symmetry; apply Nat.eqb_neq; lia).
                  exact H6.
    Qed.

Lemma scan_rows_diag :
      forall n i j2len best,
        lo <= i -> i + n = hi ->
        prev_ok i j2len -> best_ok i best ->
        best_ok hi (scan_rows a a (seq i n) lo hi j2len best).
    Proof.
      induction n as [|n IH]; intros i j2len [[bi bj] bs] Hlo Hn Hprev Hbest.
      - simpl. replace hi with i by lia. exact Hbest.
      - simpl.
        destruct Hbest as (<- & Hbi & Hsum & Hrun).
        assert (Hi : i < List.length a) by lia.
        unfold b2j_at.
        destruct (nth_error a i) as [x|] eqn:Hx;
          [|apply nth_error_None in Hx; lia].
        unfold b2j. destruct (bpopular a x) eqn:Hp.
        + (* a popular element: the row is skipped *)
          simpl. apply IH; try lia.
          * assert (H0 : run (S i) = 0).
            { simpl. rewrite Hx, Hp.
              now rewrite andb_false_r. }
            split; [|unfold j2lenget; now rewrite H0].
            intros [|j]; unfold j2lenget; lia.
          * repeat split; auto; try lia.
            intros m Hm. destruct (Nat.eq_dec m (S i)) as [->|].
            -- simpl. rewrite Hx, Hp. rewrite andb_false_r. lia.
            -- apply Hrun. lia.
        + pose proof (@scan_row_diag i x j2len Hlo ltac:(lia) Hx Hp Hprev
                        (indices x a 0) (fun _ => 0) bi bs) as H.
          destruct (scan_row (indices x a 0) i lo hi j2len (fun _ => 0)
                             (bi, bi, bs)) as [nj' best'].
          destruct H as [Hb Hpv].
          * apply indices_sorted.
          * intros j Hj. apply indices_In in Hj. destruct Hj as [_ Hj].
            now rewrite Nat.sub_0_r in Hj.
          * exact Hbi.
          * lia.
          * exact Hrun.
          * intros j. cbv beta. lia.
          * intros Hni. exfalso. apply Hni. apply indices_In.
            split; [lia|]. now rewrite Nat.sub_0_r.
          * apply IH; auto; lia.
    Qed.

Lemma extend_left_diag :
      forall n bi bs,
        lo <= bi -> bi <= List.length a -> bi - lo <= n ->
        extend_left a a n lo lo (bi, bi, bs) = (lo, lo, bs + (bi - lo)).
    Proof.
      induction n as [|n IH]; intros bi bs Hlo Hlen Hn; simpl.
      - replace bi with lo by lia. f_equal. lia.
      - destruct (lo <? bi) eqn:E; simpl.
        + apply Nat.ltb_lt in E.
          rewrite same_elt_diag by lia.
          rewrite IH by lia. f_equal. lia.
        + apply Nat.ltb_ge in E. replace bi with lo by lia. f_equal. lia.
    Qed.

Lemma extend_right_diag :
      forall n bs,
        lo + bs <= hi -> hi - (lo + bs) <= n ->
        extend_right a a n hi hi (lo, lo, bs) = (lo, lo, hi - lo).
    Proof.
      induction n as [|n IH]; intros bs Hle Hn; simpl.
      - f_equal. lia.
      - destruct (lo + bs <? hi) eqn:E; simpl.
        + apply Nat.ltb_lt in E.
          rewrite same_elt_diag by lia.
          apply IH; lia.
        + apply Nat.ltb_ge in E. f_equal. lia.
    Qed.

    (** On two equal sequences the longest match of a range with itself is
        the whole range. *)
Lemma find_longest_match_diag :
      lo <= hi -> find_longest_match a a lo hi lo hi = (lo, lo, hi - lo).
    Proof.
      intros Hle. unfold find_longest_match.
      pose proof (@scan_rows_diag (hi - lo) lo (fun _ => 0) (lo, lo, 0)
                    (Nat.le_refl _) ltac:(lia)) as H.
      destruct (scan_rows a a (seq lo (hi - lo)) lo hi (fun _ => 0) (lo, lo, 0))
        as [[bi bj] bs].
      destruct H as (<- & Hbi & Hsum & _).
      - assert (H0 : forall j, j2lenget (fun _ => 0) j = 0)
          by (now intros [|j]).
        split.
        + intros j. rewrite H0. lia.
        + rewrite H0. pose proof (run_le lo). lia.
      - repeat split; try lia.
        intros m Hm. pose proof (run_le m). lia.
      - rewrite extend_left_diag by lia.
        apply extend_right_diag; lia.
    Qed.

End Diagonal.

Section Bounds.

Variables a b : list ascii.

Lemma scan_row_within (i alo blo bhi : nat) (j2len : nat -> nat) :
  (forall j, j2len j <= i - alo) ->
  alo <= i ->
  forall js nj best nj' best',
    within alo (S i) best ->
    (forall j, nj j <= S i - alo) ->
    scan_row js i blo bhi j2len nj best = (nj', best') ->
    within alo (S i) best' /\ forall j, nj' j <= S i - alo.
Proof.
  intros Hprev Hi.
  induction js as [|j js IH]; intros nj best nj' best' Hb Hnj H;
    cbn [scan_row] in H.
  - inversion H; subst. now split.
  - destruct (j <? blo); [now apply (IH nj best)|].
    destruct (bhi <=? j); [inversion H; subst; now split|].
    assert (Hk : j2lenget j2len j + 1 <= S i - alo).
    { destruct j as [|j']; cbn [j2lenget]; [lia|].
      specialize (Hprev j'). lia. }
    apply IH in H; auto.
    + destruct best as [[bi bj] bs]. unfold improve.
      destruct (bs <? j2lenget j2len j + 1); [|exact Hb].
      cbn [within]. lia.
    + intros j0. unfold store. destruct (j0 =? j); [exact Hk|apply Hnj].
Qed.

Lemma scan_rows_within (alo blo bhi : nat) :
  forall n i j2len best,
    alo <= i ->
    (forall j, j2len j <= i - alo) ->
    within alo i best ->
    within alo (i + n) (scan_rows a b (seq i n) blo bhi j2len best).
Proof.
  induction n as [|n IH]; intros i j2len best Hi Hprev Hb.
  - cbn. now rewrite Nat.add_0_r.
  - cbn [seq scan_rows].
    destruct (scan_row (b2j_at a b i) i blo bhi j2len (fun _ => 0) best)
      as [nj' best'] eqn:E.
    apply (@scan_row_within i alo blo bhi j2len Hprev Hi) in E.
    + destruct E as [Hb' Hnj'].
      replace (i + S n) with (S i + n) by lia.
      apply IH; auto.
    + destruct best as [[bi bj] bs]. cbn [within] in *. lia.
    + intros j. cbv beta. lia.
Qed.

Lemma extend_left_within (alo blo hi : nat) :
  forall n m, within alo hi m -> within alo hi (extend_left a b n alo blo m).
Proof.
  induction n as [|n IH]; intros [[bi bj] bs] Hm; cbn [extend_left]; auto.
  destruct ((alo <? bi) && (blo <? bj) && same_elt a b (bi - 1) (bj - 1))
    eqn:E; auto.
  apply IH. apply andb_prop in E. destruct E as [E _].
  apply andb_prop in E. destruct E as [E _]. apply Nat.ltb_lt in E.
  cbn [within] in *. lia.
Qed.

Lemma extend_right_within (alo ahi bhi : nat) :
  forall n m, within alo ahi m -> within alo ahi (extend_right a b n ahi bhi m).
Proof.
  induction n as [|n IH]; intros [[bi bj] bs] Hm; cbn [extend_right]; auto.
  destruct ((bi + bs <? ahi) && (bj + bs <? bhi)
            && same_elt a b (bi + bs) (bj + bs)) eqn:E; auto.
  apply IH. apply andb_prop in E. destruct E as [E _].
  apply andb_prop in E. destruct E as [E _]. apply Nat.ltb_lt in E.
  cbn [within] in *. lia.
Qed.

(** The block that [find_longest_match] returns lies in the range of
    [a] it was asked to search. *)
Lemma find_longest_match_within (alo ahi blo bhi : nat) :
  alo <= ahi -> within alo ahi (find_longest_match a b alo ahi blo bhi).
Proof.
  intros Hle. unfold find_longest_match.
  pose proof (@scan_rows_within alo blo bhi (ahi - alo) alo (fun _ => 0)
                (alo, blo, 0) (Nat.le_refl _)) as H.
  replace (alo + (ahi - alo)) with ahi in H by lia.
  destruct (scan_rows a b (seq alo (ahi - alo)) blo bhi (fun _ => 0)
                      (alo, blo, 0)) as [[bi bj] bs].
  pose proof (@extend_left_within alo blo ahi bi (bi, bj, bs)) as H1.
  destruct (extend_left a b bi alo blo (bi, bj, bs)) as [[bi1 bj1] bs1].
  apply extend_right_within. apply H1. apply H.
  - intros j. cbv beta. lia.
  - cbn [within]. lia.
Qed.

(** The loop of [get_matching_blocks] empties its queue before the fuel
    runs out: more fuel does not change the result. *)
Lemma drain_fuel_enough :
  forall fuel queue acc extra,
    queue_ok queue ->
    queue_weight queue <= fuel ->
    drain a b (fuel + extra) queue acc = drain a b fuel queue acc.
Proof.
  induction fuel as [|fuel IH]; intros queue acc extra Hok Hw.
  - destruct queue as [|[[[alo ahi] blo] bhi] q].
    + now destruct extra.
    + cbn [queue_weight] in Hw. lia.
  - cbn [Nat.add drain].
    destruct queue as [|[[[alo ahi] blo] bhi] q]; [reflexivity|].
    inversion Hok as [|? ? Hle Hq]; subst.
    cbn [queue_weight] in Hw.
    pose proof (@find_longest_match_within alo ahi blo bhi Hle) as Hin.
    destruct (find_longest_match a b alo ahi blo bhi) as [[i j] k].
    cbn [within] in Hin.
    destruct (k =? 0) eqn:Ek; [apply IH; auto; lia|].
    apply Nat.eqb_neq in Ek.
    destruct ((alo <? i) && (blo <? j)), ((i + k <? ahi) && (j + k <? bhi));
      apply IH; repeat constructor; auto; cbn [queue_weight]; lia.
Qed.

Lemma get_matching_blocks_fuel (extra : nat) :
  drain a b (queue_weight [(0, List.length a, 0, List.length b)] + extra)
        [(0, List.length a, 0, List.length b)] []
  = get_matching_blocks a b.
Proof.
  unfold get_matching_blocks. apply drain_fuel_enough.
  - repeat constructor. lia.
  - lia.
Qed.

End Bounds.

Lemma matches_same (a : list ascii) : matches a a = List.length a.
  Proof.
    unfold matches, get_matching_blocks. cbn [queue_weight].
    replace (2 * (List.length a - 0) + 1 + 0) with (S (2 * List.length a))
      by lia.
    cbn [drain].
    rewrite find_longest_match_diag by lia.
    rewrite Nat.sub_0_r.
    destruct (List.length a =? 0) eqn:E.
    - apply Nat.eqb_eq in E. rewrite E. reflexivity.
    - rewrite Nat.ltb_irrefl. cbn [andb Nat.add].
      rewrite Nat.ltb_irrefl. cbn [andb].
      destruct (2 * List.length a); cbn; lia.
  Qed.

  (** [SequenceMatcher(None, s, s).ratio()] is 1.0. *)
Lemma ratio_same (a : list ascii) : (ratio a a == 1)%Q.
  Proof.
    unfold ratio. rewrite matches_same.
    destruct (List.length a + List.length a =? 0) eqn:E; [reflexivity|].
    apply Nat.eqb_neq in E.
    unfold Qeq. cbn [Qnum Qden].
    rewrite <- (positive_nat_Z (Pos.of_nat (List.length a + List.length a))).
    rewrite Nat2Pos.id by exact E.
    lia.
  Qed.

End DifflibFacts.

Lemma gt_of_one (x t : Q) : (x == 1)%Q -> (t < 1)%Q -> gt x t = true.
Proof.
  intros Hx Ht. unfold gt.
  destruct (Qle_bool x t) eqn:E; [|reflexivity].
  apply Qle_bool_iff in E. rewrite Hx in E.
  exfalso. apply (Qlt_not_le _ _ Ht E).
Qed.

(** Two texts that are equal up to case are more similar than both
    thresholds. *)
Lemma similar_text_same_lower (text1 text2 : string) :
  PyStr.lower text1 = PyStr.lower text2 ->
  (similar_text text1 text2 == 1)%Q.
Proof.
  intros H. unfold similar_text. rewrite H. apply DifflibFacts.ratio_same.
Qed.

(* ================================================================= *)
(** ** Slices *)

Section SliceFacts.

Context {A : Type}.
Implicit Types (l : list A) (s e : nat).

Lemma In_firstn n l x : In x (firstn n l) -> In x l.
  Proof.
    intros H. rewrite <- (firstn_skipn n l). apply in_or_app. now left.
  Qed.

Lemma In_skipn n l x : In x (skipn n l) -> In x l.
  Proof.
    intros H. rewrite <- (firstn_skipn n l). apply in_or_app. now right.
  Qed.

Lemma firstn_plus n m : forall l,
    firstn (n + m) l = firstn n l ++ firstn m (skipn n l).
  Proof.
    induction n as [|n IH]; intros l; simpl; [reflexivity|].
    destruct l as [|x l]; simpl.
    - now rewrite firstn_nil.
    - now rewrite IH.
  Qed.

Lemma slice_length l s e :
    List.length (slice l s e) = Nat.min (e - s) (List.length l - s).
  Proof. unfold slice. now rewrite length_firstn, length_skipn. Qed.

Lemma slice_clamp l s e :
    slice l s (Nat.min (List.length l) e) = slice l s e.
  Proof.
    unfold slice.
    destruct (Nat.le_ge_cases (List.length l) e) as [H|H].
    - rewrite Nat.min_l by exact H.
      rewrite !firstn_all2; try reflexivity; rewrite length_skipn; lia.
    - now rewrite Nat.min_r by exact H.
  Qed.

Lemma slice_In l s e x : In x (slice l s e) -> In x l.
  Proof.
    unfold slice. intros H.
    apply In_firstn in H. revert H. apply In_skipn.
  Qed.

Lemma slice_nil l s : slice l s s = [].
  Proof. unfold slice. now rewrite Nat.sub_diag. Qed.

Lemma slice_app l s m e :
    s <= m -> m <= e -> slice l s m ++ slice l m e = slice l s e.
  Proof.
    intros Hsm Hme. unfold slice.
    replace (e - s) with ((m - s) + (e - m)) by lia.
    rewrite firstn_plus, skipn_skipn.
    now replace (m - s + s) with m by lia.
  Qed.

Lemma slice_all l : slice l 0 (List.length l) = l.
  Proof. unfold slice. simpl. rewrite Nat.sub_0_r. apply firstn_all. Qed.

Lemma slice_to_end l s : slice l s (List.length l) = skipn s l.
  Proof.
    unfold slice. apply firstn_all2. rewrite length_skipn. lia.
  Qed.

End SliceFacts.

(* ================================================================= *)
(** ** [get_toc_window] *)

Lemma get_toc_window_length (toc_chunks : list TocChunk) (cursor : Z) :
  List.length (get_toc_window toc_chunks cursor window_size)
  = Nat.min window_size
            (List.length toc_chunks - Z.to_nat (Z.max 0 (cursor - 2))).
Proof.
  unfold get_toc_window. rewrite slice_clamp, slice_length.
  now rewrite Nat.add_comm, Nat.add_sub.
Qed.

Lemma get_toc_window_In (toc_chunks : list TocChunk) (cursor : Z) (n : nat)
      (t : TocChunk) :
  In t (get_toc_window toc_chunks cursor n) -> In t toc_chunks.
Proof. unfold get_toc_window. apply slice_In. Qed.

(** A cursor that is an index of the slice sees at least one option. *)
Lemma get_toc_window_nonempty (toc_segment : list TocChunk) (cursor : nat) :
  cursor < List.length toc_segment ->
  get_toc_window toc_segment (Z.of_nat cursor) window_size <> [].
Proof.
  intros H E. apply (f_equal (@List.length _)) in E.
  rewrite get_toc_window_length in E. unfold window_size in E.
  cbn [List.length] in E. lia.
Qed.

(** C4 as stated fails: with one outline entry and the cursor at 3 the
    window is empty. *)
Lemma get_toc_window_empty_counterexample : ~ WindowSpec.never_empty.
Proof.
  intros H.
  specialize (H [mkToc 0 "Ch1" "Intro"] 3%Z ltac:(discriminate)).
  vm_compute in H. lia.
Qed.

(** C4 (amended): [get_toc_window] is the slice
    [outline[max(0,cursor-2) : max(0,cursor-2)+7]] clamped to the outline;
    it never has more than 7 entries; and it has at least one entry
    exactly when [max(0, cursor-2)] is below the length of the outline,
    which is the case for every cursor that is an index of it. *)
Theorem get_toc_window_spec (outline : list TocChunk) (cursor : Z) :
  get_toc_window outline cursor window_size = WindowSpec.window outline cursor
  /\ List.length (get_toc_window outline cursor window_size) <= WindowSpec.W
  /\ (1 <= List.length (get_toc_window outline cursor window_size)
      <-> (Z.max 0 (cursor - 2) < Z.of_nat (List.length outline))%Z)
  /\ ((0 <= cursor < Z.of_nat (List.length outline))%Z ->
      1 <= List.length (get_toc_window outline cursor window_size)).
Proof.
  assert (Hlen := get_toc_window_length outline cursor).
  unfold window_size, WindowSpec.W in *.
  repeat split.
  - unfold get_toc_window, WindowSpec.window, WindowSpec.B, WindowSpec.W.
    now rewrite slice_clamp.
  - lia.
  - lia.
  - lia.
  - lia.
Qed.

Lemma get_toc_window_spec_witness :
  1 <= List.length (get_toc_window Scenario.outline 2%Z window_size).
Proof.
  apply (proj2 (proj2 (proj2 (get_toc_window_spec Scenario.outline 2%Z)))).
  vm_compute. split; [discriminate | reflexivity].
Defined.

(* ================================================================= *)
(** ** [find_alignment_points] *)

Lemma gt_09_08 (x : Q) : gt x (9 # 10) = true -> gt x (8 # 10) = true.
Proof.
  unfold gt. intros H.
  destruct (Qle_bool x (8 # 10)) eqn:E; [|reflexivity].
  destruct (Qle_bool x (9 # 10)) eqn:E'; [discriminate|].
  apply Qle_bool_iff in E.
  assert (Hle : (x <= 9 # 10)%Q).
  { eapply Qle_trans; [exact E|]. unfold Qle. simpl. lia. }
  apply Qle_bool_iff in Hle. congruence.
Qed.

Lemma scan_toc_existsb (toc_chunks : list TocChunk) (c : ContentChunk) :
  scan_toc toc_chunks c = existsb (fun t => anchors t c) toc_chunks.
Proof.
  induction toc_chunks as [|t rest IH]; simpl; [reflexivity|].
  unfold anchors at 1.
  destruct (List.length (PyStr.split (section t))) as [|[|n]]; simpl; auto.
  destruct (gt _ _); simpl; auto.
Qed.

Lemma scan_toc_true (toc_chunks : list TocChunk) (c : ContentChunk) :
  scan_toc toc_chunks c = true <->
  exists t, In t toc_chunks /\ anchors t c = true.
Proof. rewrite scan_toc_existsb. apply existsb_exists. Qed.

Lemma scan_content_filter (toc_chunks : list TocChunk) :
  forall content_chunks i,
    scan_content toc_chunks content_chunks i
    = map (Nat.add i)
          (filter (anchored toc_chunks content_chunks)
                  (seq 0 (List.length content_chunks))).
Proof.
  induction content_chunks as [|c rest IH]; intros i; [reflexivity|].
  cbn [scan_content List.length seq filter].
  rewrite <- seq_shift, filter_map_swap.
  change (fun a => anchored toc_chunks (c :: rest) (S a))
    with (anchored toc_chunks rest).
  change (anchored toc_chunks (c :: rest) 0)
    with (existsb (fun t => anchors t c) toc_chunks).
  rewrite <- scan_toc_existsb.
  destruct (scan_toc toc_chunks c); cbn [map]; rewrite IH, map_map.
  - rewrite Nat.add_0_r. f_equal. apply map_ext. intros; lia.
  - apply map_ext. intros; lia.
Qed.

Lemma find_alignment_points_filter (toc_chunks : list TocChunk)
      (content_chunks : list ContentChunk) :
  find_alignment_points toc_chunks content_chunks
  = filter (anchored toc_chunks content_chunks)
           (seq 0 (List.length content_chunks)).
Proof.
  unfold find_alignment_points. rewrite scan_content_filter.
  rewrite <- (map_id (filter _ _)) at 2. now apply map_ext.
Qed.

Lemma find_alignment_points_In (toc_chunks : list TocChunk)
      (content_chunks : list ContentChunk) (i : nat) :
  In i (find_alignment_points toc_chunks content_chunks) <->
  exists c t, nth_error content_chunks i = Some c
              /\ In t toc_chunks /\ anchors t c = true.
Proof.
  rewrite find_alignment_points_filter, filter_In, in_seq.
  unfold anchored. split.
  - intros [_ H]. destruct (nth_error content_chunks i) as [c|]; [|discriminate].
    apply existsb_exists in H. destruct H as (t & Ht & Hc). now exists c, t.
  - intros (c & t & Hc & Ht & Ha). split.
    + assert (nth_error content_chunks i <> None) by congruence.
      apply nth_error_Some in H. lia.
    + rewrite Hc. apply existsb_exists. now exists t.
Qed.

Lemma filter_seq_sorted (f : nat -> bool) :
  forall n s, StronglySorted lt (filter f (seq s n)).
Proof.
  induction n as [|n IH]; intros s; simpl; [constructor|].
  destruct (f s); [|apply IH].
  constructor; [apply IH|].
  apply Forall_forall. intros x Hx. apply filter_In in Hx.
  destruct Hx as [Hx _]. apply in_seq in Hx. lia.
Qed.

(** The anchors come out in increasing order and are indices of the
    content. *)
Lemma find_alignment_points_sorted (toc_chunks : list TocChunk)
      (content_chunks : list ContentChunk) :
  StronglySorted lt (find_alignment_points toc_chunks content_chunks)
  /\ Forall (fun p => p < List.length content_chunks)
            (find_alignment_points toc_chunks content_chunks).
Proof.
  rewrite find_alignment_points_filter. split.
  - apply filter_seq_sorted.
  - apply Forall_forall. intros x Hx. apply filter_In in Hx.
    destruct Hx as [Hx _]. apply in_seq in Hx. lia.
Qed.

(** C2 as stated fails: the second chunk is anchored by an outline
    entry that lies before the entry that anchored the first chunk, which
    a scan that starts at the previous anchor cannot see. *)
Lemma find_alignment_points_rescans_counterexample :
  find_alignment_points AnchorFinderSpec.outline AnchorFinderSpec.chunks
  = [0; 1]
  /\ AnchorFinderSpec.findAnchors AnchorFinderSpec.outline
       AnchorFinderSpec.chunks = [(0, 1)]
  /\ find_alignment_points AnchorFinderSpec.outline AnchorFinderSpec.chunks
     <> map fst (AnchorFinderSpec.findAnchors AnchorFinderSpec.outline
                   AnchorFinderSpec.chunks).
Proof. vm_compute. repeat split; discriminate. Qed.

(** C2 (amended): for every content chunk the scan runs over the whole
    outline from its first entry, whatever was matched for earlier
    chunks; the chunk becomes an anchor as soon as one entry with more
    than one word has a similarity above 0.9, and the anchors are the
    indices of these chunks in content order. *)
Theorem find_alignment_points_scans_whole_outline
        (toc_chunks : list TocChunk) (content_chunks : list ContentChunk) :
  find_alignment_points toc_chunks content_chunks
  = filter (fun i =>
              match nth_error content_chunks i with
              | Some c => existsb (fun t => anchors t c) toc_chunks
              | None => false
              end)
           (seq 0 (List.length content_chunks))
  /\ forall earlier c later,
       content_chunks = earlier ++ c :: later ->
       (In (List.length earlier)
           (find_alignment_points toc_chunks content_chunks)
        <-> scan_toc toc_chunks c = true).
Proof.
  split; [apply find_alignment_points_filter|].
  intros earlier c later ->.
  rewrite find_alignment_points_In, scan_toc_true.
  rewrite nth_error_app2, Nat.sub_diag by lia. simpl.
  split.
  - intros (c' & t & [= <-] & H). now exists t.
  - intros (t & H). now exists c, t.
Qed.

Lemma find_alignment_points_scans_whole_outline_witness :
  In 1 (find_alignment_points AnchorFinderSpec.outline AnchorFinderSpec.chunks).
Proof.
  apply (proj2 (find_alignment_points_scans_whole_outline
                  AnchorFinderSpec.outline AnchorFinderSpec.chunks)
               [mkContent "Gene Expression" "..."]
               (mkContent "Cell Structure" "...") []).
  - reflexivity.
  - vm_compute. reflexivity.
Defined.

Lemma scan_toc_drop_single_word (pre post : list TocChunk) (t : TocChunk)
      (c : ContentChunk) :
  List.length (PyStr.split (section t)) <= 1 ->
  scan_toc (pre ++ t :: post) c = scan_toc (pre ++ post) c.
Proof.
  intros H. rewrite !scan_toc_existsb, !existsb_app. simpl.
  unfold anchors at 2.
  replace (1 <? List.length (PyStr.split (section t))) with false
    by (symmetry; apply Nat.ltb_ge; exact H).
  reflexivity.
Qed.

(** C3: a chunk whose heading equals, up to case, the section of an
    outline entry of two words or more is an anchor; and an entry whose
    section is a single word never produces an anchor: the anchors are
    the same with or without it. *)
Theorem find_alignment_points_equal_labels :
  (forall toc_chunks content_chunks i c t,
      nth_error content_chunks i = Some c ->
      In t toc_chunks ->
      PyStr.lower (subsection c) = PyStr.lower (section t) ->
      2 <= List.length (PyStr.split (section t)) ->
      (similar_text (section t) (subsection c) == 1)%Q
      /\ In i (find_alignment_points toc_chunks content_chunks))
  /\ (forall pre t post content_chunks,
         List.length (PyStr.split (section t)) <= 1 ->
         find_alignment_points (pre ++ t :: post) content_chunks
         = find_alignment_points (pre ++ post) content_chunks).
Proof.
  split.
  - intros toc_chunks content_chunks i c t Hc Ht Heq Hw.
    assert (Hs : (similar_text (section t) (subsection c) == 1)%Q)
      by (apply similar_text_same_lower; now symmetry).
    split; [exact Hs|].
    apply find_alignment_points_In. exists c, t. repeat split; auto.
    unfold anchors. apply andb_true_intro. split.
    + apply Nat.ltb_lt. lia.
    + apply gt_of_one; [exact Hs|]. reflexivity.
  - intros pre t post content_chunks Hw.
    rewrite !find_alignment_points_filter.
    apply filter_ext. intros i. unfold anchored.
    destruct (nth_error content_chunks i) as [c|]; [|reflexivity].
    rewrite <- !scan_toc_existsb. now apply scan_toc_drop_single_word.
Qed.

Lemma find_alignment_points_equal_labels_witness :
  In 0 (find_alignment_points Scenario.outline Scenario.chunks)
  /\ find_alignment_points ([] ++ mkToc 0 "Ch1" "Intro" :: skipn 1 Scenario.outline)
                           Scenario.chunks
     = find_alignment_points ([] ++ skipn 1 Scenario.outline) Scenario.chunks.
Proof.
  split.
  - apply (proj1 find_alignment_points_equal_labels
                 Scenario.outline Scenario.chunks 0
                 (mkContent "Cell Structure" "...")
                 (mkToc 1 "Ch1" "Cell Structure")).
    + reflexivity.
    + simpl. tauto.
    + reflexivity.
    + vm_compute. lia.
  - apply (proj2 find_alignment_points_equal_labels).
    vm_compute. lia.
Defined.

(* ================================================================= *)
(** ** [match_content_to_toc] *)

Lemma split_on_nonempty (sep : ascii) :
  forall s cur, PyStr.split_on sep s cur <> [].
Proof.
  induction s as [|c s IH]; intros cur; simpl; [discriminate|].
  destruct (Ascii.eqb c sep); [discriminate|apply IH].
Qed.

Lemma parse_all_length :
  forall pieces ns,
    parse_all pieces = Some ns -> List.length ns = List.length pieces.
Proof.
  induction pieces as [|p pieces IH]; simpl; intros ns H.
  - now inversion H.
  - destruct (PyStr.int _); [|discriminate].
    destruct (parse_all pieces) as [ns'|]; [|discriminate].
    inversion H; subst. simpl. f_equal. now apply IH.
Qed.

(** A reply that parses gives at least one index. *)
Lemma parse_indices_nonempty (text : string) (indices : list Z) :
  parse_indices text = Some indices -> indices <> [].
Proof.
  unfold parse_indices. intros H ->.
  apply parse_all_length in H. simpl in H.
  pose proof (@split_on_nonempty "," (PyStr.strip text) "") as Hne.
  destruct (PyStr.split_on "," (PyStr.strip text) ""); [congruence|].
  discriminate.
Qed.

Lemma select_choose (first : TocChunk) (rest : list TocChunk) :
  forall indices,
    select (first :: rest) indices
    = Ok (map (FallbackSpec.choose (first :: rest) first) indices).
Proof.
  induction indices as [|idx indices IH]; [reflexivity|].
  cbn [select map]. rewrite IH. unfold FallbackSpec.choose.
  destruct ((0 <=? idx)%Z && (idx <? Z.of_nat (List.length (first :: rest)))%Z)
    eqn:E; [|reflexivity].
  apply andb_prop in E. destruct E as [E1 E2].
  apply Z.leb_le in E1. apply Z.ltb_lt in E2.
  destruct (nth_error (first :: rest) (Z.to_nat idx)) as [t|] eqn:En.
  - now rewrite (nth_error_nth _ _ first En).
  - apply nth_error_None in En. lia.
Qed.

Lemma choose_In (window : list TocChunk) (first : TocChunk) (idx : Z) :
  In first window -> In (FallbackSpec.choose window first idx) window.
Proof.
  intros H. unfold FallbackSpec.choose.
  destruct (_ && _) eqn:E; [|exact H].
  apply andb_prop in E. destruct E as [E1 E2].
  apply Z.leb_le in E1. apply Z.ltb_lt in E2.
  apply nth_In. lia.
Qed.

(** What [match_content_to_toc] returns on a window that is not empty. *)
Lemma match_content_to_toc_eq (oracle : Oracle) (content : ContentChunk)
      (content_list : list ContentChunk) (current_index : nat)
      (first : TocChunk) (rest : list TocChunk) (w : World) :
  let window := first :: rest in
  let chunks := FallbackSpec.sent_blocks content content_list current_index in
  match_content_to_toc oracle content content_list current_index window w
  = match oracle (requests w) (mkRequest window chunks) with
    | Fails =>
        (Ok (repeat first (List.length chunks)),
         FallbackSpec.with_log w [(ERROR, api_call_failed)])
    | Text text =>
        match parse_indices text with
        | None =>
            (Ok (repeat first (List.length chunks)),
             FallbackSpec.with_log w [(ERROR, invalid_number_format)])
        | Some indices =>
            (Ok (map (FallbackSpec.choose window first) indices),
             FallbackSpec.with_log w [])
        end
    end.
Proof.
  intros window chunks.
  unfold match_content_to_toc, try_except, bind, ask.
  fold chunks. cbn [fst snd requests log files].
  change ([content] ++ lookahead content_list current_index 1
                    ++ lookahead content_list current_index 2) with chunks.
  destruct (oracle (requests w) (mkRequest window chunks)) as [|text].
  - reflexivity.
  - destruct (parse_indices text) as [indices|].
    + unfold lift. unfold window. rewrite select_choose.
      unfold FallbackSpec.with_log. now rewrite app_nil_r.
    + reflexivity.
Qed.

(** On a window that is not empty the wrapper never raises, sends one
    request, and returns at least one option, each taken from the window. *)
Lemma match_content_to_toc_ok (oracle : Oracle) (content : ContentChunk)
      (content_list : list ContentChunk) (current_index : nat)
      (window : list TocChunk) (w : World) :
  window <> [] ->
  exists m ms w',
    match_content_to_toc oracle content content_list current_index window w
    = (Ok (m :: ms), w')
    /\ In m window
    /\ requests w' = S (requests w)
    /\ files w' = files w.
Proof.
  intros Hne. destruct window as [|first rest]; [congruence|].
  rewrite match_content_to_toc_eq.
  destruct (oracle _ _) as [|text].
  - exists first, (repeat first
                     (List.length (lookahead content_list current_index 1
                                   ++ lookahead content_list current_index 2))),
      (FallbackSpec.with_log w [(ERROR, api_call_failed)]).
    repeat split. now left.
  - destruct (parse_indices text) as [indices|] eqn:E.
    + pose proof (parse_indices_nonempty _ E) as Hi.
      destruct indices as [|idx indices]; [congruence|].
      eexists _, _, _. cbn [map]. repeat split.
      apply choose_In. now left.
    + exists first, (repeat first
                     (List.length (lookahead content_list current_index 1
                                   ++ lookahead content_list current_index 2))),
      (FallbackSpec.with_log w [(ERROR, invalid_number_format)]).
      repeat split. now left.
Qed.

(* ================================================================= *)
(** ** The loop over the chunks of a segment *)

Lemma index_In (toc_segment : list TocChunk) (m : TocChunk) :
  In m toc_segment ->
  exists k, index toc_segment m = Some k /\ k < List.length toc_segment.
Proof.
  induction toc_segment as [|t rest IH]; intros H; [destruct H|].
  cbn [index]. destruct (same_object t m) eqn:E.
  - exists 0. split; [reflexivity|simpl; lia].
  - destruct H as [->|H].
    + unfold same_object in E. now rewrite Nat.eqb_refl in E.
    + destruct (IH H) as (k & Hk & Hlt). exists (S k).
      rewrite Hk. split; [reflexivity|simpl; lia].
Qed.

Lemma chunk_of_merge (t : TocChunk) (c : ContentChunk) :
  chunk_of (merge t c) = c.
Proof. now destruct c. Qed.

Lemma nth_error_seq_all {A : Type} (l : list A) :
  map (nth_error l) (seq 0 (List.length l)) = map Some l.
Proof.
  induction l as [|x l IH]; [reflexivity|].
  cbn [List.length seq map]. rewrite <- seq_shift, map_map. cbn [nth_error].
  f_equal. exact IH.
Qed.

(** One turn of the loop when the cursor is an index of the outline
    slice: the wrapper answers, the answer is found again in the slice,
    one record is added and the loop goes on with the next chunk. *)
Lemma classify_step (oracle : Oracle) (segment_content : list ContentChunk)
      (toc_segment : list TocChunk) (i : nat) (todo : list nat)
      (cursor : nat) (results : list MergedRecord) (w : World)
      (c : ContentChunk) :
  nth_error segment_content i = Some c ->
  cursor < List.length toc_segment ->
  exists m ms w' k,
    match_content_to_toc oracle c segment_content i
      (get_toc_window toc_segment (Z.of_nat cursor) window_size) w
    = (Ok (m :: ms), w')
    /\ In m (get_toc_window toc_segment (Z.of_nat cursor) window_size)
    /\ index toc_segment m = Some k
    /\ k < List.length toc_segment
    /\ requests w' = S (requests w)
    /\ files w' = files w
    /\ classify oracle segment_content toc_segment (i :: todo) cursor
                results w
       = classify oracle segment_content toc_segment todo k
                  (results ++ [merge m c]) w'.
Proof.
  intros Hc Hcur.
  destruct (@match_content_to_toc_ok oracle c segment_content i
              (get_toc_window toc_segment (Z.of_nat cursor) window_size) w
              (get_toc_window_nonempty _ Hcur))
    as (m & ms & w' & Hm & Hin & Hreq & Hfiles).
  destruct (@index_In toc_segment m (get_toc_window_In _ _ _ _ Hin))
    as (k & Hk & Hlt).
  exists m, ms, w', k. repeat split; auto.
  cbn [classify]. unfold bind at 1, lift, item. rewrite Hc.
  unfold bind at 1. rewrite Hm. now rewrite Hk.
Qed.

(** The whole loop: one record per index visited, made from the chunk
    at that index, labelled from the outline slice; the cursor ends on an
    index of the slice. *)
Lemma classify_run (oracle : Oracle) (segment_content : list ContentChunk)
      (toc_segment : list TocChunk) :
  forall todo cursor results w,
    cursor < List.length toc_segment ->
    Forall (fun i => i < List.length segment_content) todo ->
    exists cursor' recs w',
      classify oracle segment_content toc_segment todo cursor results w
      = (Ok (cursor', results ++ recs), w')
      /\ cursor' < List.length toc_segment
      /\ map Some (map chunk_of recs) = map (nth_error segment_content) todo
      /\ Forall (labelled_from toc_segment) recs
      /\ requests w' = requests w + List.length todo
      /\ files w' = files w.
Proof.
  induction todo as [|i todo IH]; intros cursor results w Hcur Htodo.
  - exists cursor, [], w. cbn. rewrite app_nil_r. repeat split; auto; lia.
  - inversion Htodo as [|? ? Hi Htodo']; subst.
    destruct (nth_error segment_content i) as [c|] eqn:Hc;
      [|apply nth_error_None in Hc; lia].
    destruct (@classify_step oracle segment_content toc_segment i todo cursor
                results w c Hc Hcur)
      as (m & ms & w1 & k & _ & Hin & _ & Hk & Hreq & Hfiles & ->).
    destruct (IH k (results ++ [merge m c]) w1 Hk Htodo')
      as (cursor' & recs & w' & -> & Hc' & Hmap & Hlab & Hreq' & Hfiles').
    exists cursor', (merge m c :: recs), w'.
    repeat split; auto.
    + now rewrite <- app_assoc.
    + cbn [map]. rewrite chunk_of_merge, Hc. now f_equal.
    + constructor; [|exact Hlab].
      exists m. split; [|split; reflexivity].
      eapply get_toc_window_In; exact Hin.
    + rewrite Hreq', Hreq. simpl. lia.
    + congruence.
Qed.

Lemma classify_segment (oracle : Oracle) (segment_content : list ContentChunk)
      (toc_segment : list TocChunk) (results : list MergedRecord) (w : World) :
  toc_segment <> [] ->
  exists cursor' recs w',
    classify oracle segment_content toc_segment
             (seq 0 (List.length segment_content)) 0 results w
    = (Ok (cursor', results ++ recs), w')
    /\ map chunk_of recs = segment_content
    /\ Forall (labelled_from toc_segment) recs
    /\ requests w' = requests w + List.length segment_content
    /\ files w' = files w.
Proof.
  intros Hne.
  destruct (@classify_run oracle segment_content toc_segment
              (seq 0 (List.length segment_content)) 0 results w)
    as (cursor' & recs & w' & H & _ & Hmap & Hlab & Hreq & Hfiles).
  - destruct toc_segment; [congruence|simpl; lia].
  - apply Forall_forall. intros i Hi. apply in_seq in Hi. lia.
  - exists cursor', recs, w'. repeat split; auto.
    + rewrite nth_error_seq_all in Hmap.
      revert Hmap. generalize (map chunk_of recs). clear.
      induction segment_content as [|c l IH]; intros [|x xs] H;
        try discriminate; [reflexivity|].
      inversion H; subst. f_equal. now apply IH.
    + now rewrite Hreq, length_seq.
Qed.

(* ================================================================= *)
(** ** Recovery from a failed classification *)

Lemma match_content_to_toc_failure (oracle : Oracle) (content : ContentChunk)
      (content_list : list ContentChunk) (current_index : nat)
      (first : TocChunk) (rest : list TocChunk) (w : World) :
  FallbackSpec.failure
    (oracle (requests w)
            (mkRequest (first :: rest)
               (FallbackSpec.sent_blocks content content_list current_index)))
    (first :: rest) ->
  exists ms w',
    match_content_to_toc oracle content content_list current_index
                         (first :: rest) w
    = (Ok (first :: ms), w').
Proof.
  intros Hf. rewrite match_content_to_toc_eq.
  destruct (oracle _ _) as [|text]; cbn [FallbackSpec.failure] in Hf.
  - eexists _, _. reflexivity.
  - destruct (parse_indices text) as [[|idx indices]|].
    + destruct Hf.
    + eexists _, _. cbn [map]. unfold FallbackSpec.choose at 1.
      replace ((0 <=? idx)%Z
               && (idx <? Z.of_nat (List.length (first :: rest)))%Z)
        with false; [reflexivity|].
      symmetry. apply andb_false_iff.
      destruct Hf as [Hf|Hf]; [left; apply Z.leb_gt|right; apply Z.ltb_ge];
        exact Hf.
    + eexists _, _. reflexivity.
Qed.

(** C5 as stated fails: an index outside the window is replaced by the
    first option without any log entry (and the entries that are written
    for the other two failures are errors, not warnings). *)
Lemma match_content_to_toc_warning_counterexample :
  ~ FallbackSpec.recovers_with_warning.
Proof.
  intros H.
  specialize (H (fun _ _ => Text "9") (mkContent "DNA basics" "...")
                [mkContent "DNA basics" "..."] 0
                (mkToc 0 "Ch1" "Intro") [] (mkWorld 0 [] [])).
  cbv zeta in H.
  assert (Hf : FallbackSpec.failure (Text "9") [mkToc 0 "Ch1" "Intro"])
    by (vm_compute; right; discriminate).
  specialize (H Hf). vm_compute in H.
  destruct H as [_ [m Hm]]. discriminate.
Qed.

(** C5 (amended): on a window that is not empty [match_content_to_toc]
    never raises.  When the request raises or the reply is not a list of
    integers, it returns the first option of the window for every block
    sent and writes one entry at level ERROR; an index outside the window
    is replaced by the first option and nothing is logged.  In the three
    cases the option used for the current chunk is the first one of the
    window, and the loop of the engine adds the record made from it and
    goes on with the next chunk. *)
Theorem match_content_to_toc_recovers :
  (forall oracle content content_list current_index first rest w,
      let window := first :: rest in
      let chunks := FallbackSpec.sent_blocks content content_list
                      current_index in
      let reply := oracle (requests w) (mkRequest window chunks) in
      let run := match_content_to_toc oracle content content_list
                   current_index window w in
      (exists m ms, fst run = Ok (m :: ms))
      /\ (FallbackSpec.failure reply window ->
          exists ms, fst run = Ok (first :: ms))
      /\ match reply with
         | Fails =>
             fst run = Ok (repeat first (List.length chunks))
             /\ log (snd run) = log w ++ [(ERROR, api_call_failed)]
         | Text text =>
             match parse_indices text with
             | None =>
                 fst run = Ok (repeat first (List.length chunks))
                 /\ log (snd run) = log w ++ [(ERROR, invalid_number_format)]
             | Some indices =>
                 fst run = Ok (map (FallbackSpec.choose window first) indices)
                 /\ log (snd run) = log w
             end
         end)
  /\ (forall oracle segment_content toc_segment i todo cursor results w c
             first rest,
         nth_error segment_content i = Some c ->
         get_toc_window toc_segment (Z.of_nat cursor) window_size
         = first :: rest ->
         FallbackSpec.failure
           (oracle (requests w)
                   (mkRequest (first :: rest)
                      (FallbackSpec.sent_blocks c segment_content i)))
           (first :: rest) ->
         exists k w',
           classify oracle segment_content toc_segment (i :: todo) cursor
                    results w
           = classify oracle segment_content toc_segment todo k
                      (results ++ [merge first c]) w').
Proof.
  split.
  - intros oracle content content_list current_index first rest w.
    cbv zeta. split; [|split].
    + destruct (@match_content_to_toc_ok oracle content content_list
                  current_index (first :: rest) w ltac:(discriminate))
        as (m & ms & w' & Hrun & _).
      exists m, ms. now rewrite Hrun.
    + intros Hf.
      destruct (@match_content_to_toc_failure _ _ _ _ _ _ _ Hf)
        as (ms & w' & Hrun).
      exists ms. now rewrite Hrun.
    + rewrite match_content_to_toc_eq.
      destruct (oracle _ _) as [|text]; [split; reflexivity|].
      destruct (parse_indices text); split; try reflexivity.
      cbn [snd FallbackSpec.with_log log]. apply app_nil_r.
  - intros oracle segment_content toc_segment i todo cursor results w c
           first rest Hc Hwin Hf.
    destruct (@match_content_to_toc_failure _ _ _ _ _ _ _ Hf) as (ms & w' & Hrun).
    assert (Hin : In first toc_segment).
    { eapply get_toc_window_In. rewrite Hwin. now left. }
    destruct (@index_In _ _ Hin) as (k & Hk & _).
    exists k, w'.
    cbn [classify]. unfold bind at 1, lift, item. rewrite Hc.
    unfold bind at 1. rewrite Hwin, Hrun. now rewrite Hk.
Qed.

Lemma match_content_to_toc_recovers_witness :
  exists ms,
    fst (match_content_to_toc (fun _ _ => Fails) (mkContent "DNA basics" "...")
           Scenario.chunks 1 Scenario.outline Scenario.w0)
    = Ok (mkToc 0 "Ch1" "Intro" :: ms).
Proof.
  apply (proj1 (proj2 (proj1 match_content_to_toc_recovers
                         (fun _ _ => Fails) (mkContent "DNA basics" "...")
                         Scenario.chunks 1 (mkToc 0 "Ch1" "Intro")
                         (skipn 1 Scenario.outline) Scenario.w0))).
  exact I.
Defined.

(* ================================================================= *)
(** ** The segments *)

Section Segments.

Import SegmenterSpec.

Variable toc_chunks : list TocChunk.
Variable content_chunks : list ContentChunk.

Lemma locate_bounds :
    forall tocs i point k,
      locate tocs i content_chunks point = Ok (Some k) ->
      i <= k < i + List.length tocs /\ point < List.length content_chunks.
  Proof.
    induction tocs as [|t rest IH]; intros i point k H; [discriminate|].
    cbn [locate] in H.
    destruct (nth_error content_chunks point) as [c|] eqn:Hc; [|discriminate].
    assert (Hp : point < List.length content_chunks).
    { apply nth_error_Some. congruence. }
    destruct (gt _ _).
    - inversion H; subst. simpl. lia.
    - apply IH in H. simpl. lia.
  Qed.

Lemma locate_total :
    forall tocs i point,
      point < List.length content_chunks ->
      exists r, locate tocs i content_chunks point = Ok r.
  Proof.
    induction tocs as [|t rest IH]; intros i point Hp; [now exists None|].
    cbn [locate].
    destruct (nth_error content_chunks point) as [c|] eqn:Hc;
      [|apply nth_error_None in Hc; lia].
    destruct (gt _ _); [now eexists|now apply IH].
  Qed.

Lemma locate_finds :
    forall tocs i point c t,
      nth_error content_chunks point = Some c ->
      In t tocs ->
      gt (similar_text (section t) (subsection c)) (8 # 10) = true ->
      exists k, locate tocs i content_chunks point = Ok (Some k).
  Proof.
    induction tocs as [|t' rest IH]; intros i point c t Hc Hin Hgt;
      [destruct Hin|].
    cbn [locate]. rewrite Hc.
    destruct (gt (similar_text (section t') (subsection c)) (8 # 10)) eqn:E;
      [now eexists|].
    destruct Hin as [->|Hin]; [congruence|].
    eapply IH; eauto.
  Qed.

  (** The index that [locate] returns is the first one, from where the
      search starts, whose section is more than 0.8 similar. *)
Lemma locate_first :
    forall tocs i point k,
      locate tocs i content_chunks point = Ok (Some k) ->
      exists t c,
        nth_error tocs (k - i) = Some t
        /\ nth_error content_chunks point = Some c
        /\ gt (similar_text (section t) (subsection c)) (8 # 10) = true
        /\ forall j t', j < k - i -> nth_error tocs j = Some t' ->
             gt (similar_text (section t') (subsection c)) (8 # 10) = false.
  Proof.
    induction tocs as [|t rest IH]; intros i point k H; [discriminate|].
    pose proof (locate_bounds _ _ _ H) as [Hk _].
    cbn [locate] in H.
    destruct (nth_error content_chunks point) as [c|] eqn:Hc; [|discriminate].
    destruct (gt (similar_text (section t) (subsection c)) (8 # 10)) eqn:E.
    - inversion H; subst. rewrite Nat.sub_diag.
      exists t, c. repeat split; auto. intros j t' Hj. lia.
    - pose proof (locate_bounds _ _ _ H) as [Hk' _].
      destruct (IH _ _ _ H) as (t1 & c1 & Ht1 & Hc1 & Hg & Hfirst).
      rewrite Hc in Hc1. inversion Hc1; subst c1.
      exists t1, c. replace (k - i) with (S (k - S i)) by lia.
      repeat split; auto.
      intros [|j] t' Hj Hn; simpl in Hn.
      + now inversion Hn; subst.
      + apply (Hfirst j); [lia|exact Hn].
  Qed.

Lemma locate_skipn_bounds (previous point k : nat) :
    locate (skipn previous toc_chunks) previous content_chunks point
    = Ok (Some k) ->
    previous <= k < List.length toc_chunks.
  Proof.
    intros H. apply locate_bounds in H. rewrite length_skipn in H. lia.
  Qed.

  (** What the segmentation loop computes, when every point is an index
      of the content. *)
Lemma split_at_found :
    forall points s,
      Forall (fun p => p < List.length content_chunks) points ->
      exists s',
        split_at toc_chunks content_chunks points s = Ok s'
        /\ content_segments s' ++ [(start s', List.length content_chunks)]
           = content_segments s
               ++ ranges (start s)
                    (map fst (found toc_chunks content_chunks points
                                    (current_toc_start s)))
                    (List.length content_chunks)
        /\ toc_segments s' ++ [skipn (current_toc_start s') toc_chunks]
           = toc_segments s
               ++ outline_slices toc_chunks (current_toc_start s)
                    (map snd (found toc_chunks content_chunks points
                                    (current_toc_start s))).
  Proof.
    induction points as [|p rest IH]; intros s Hall.
    - exists s. now repeat split.
    - inversion Hall as [|? ? Hp Hrest]; subst.
      cbn [split_at found].
      destruct (@locate_total (skipn (current_toc_start s) toc_chunks)
                  (current_toc_start s) p Hp) as (r & Hr).
      rewrite Hr. destruct r as [i|].
      + destruct (IH (mkSegments
                        (content_segments s ++ [(start s, p)])
                        (toc_segments s
                           ++ [slice toc_chunks (current_toc_start s) (i + 1)])
                        p i) Hrest) as (s' & Hs' & Hc & Ht).
        exists s'. cbn [content_segments toc_segments start current_toc_start]
          in Hc, Ht.
        split; [exact Hs'|]. rewrite Hc, Ht. cbn [map fst snd ranges
                                                  outline_slices].
        now rewrite <- !app_assoc.
      + apply IH. exact Hrest.
  Qed.

Lemma build_segments_found (points : list nat) :
    Forall (fun p => p < List.length content_chunks) points ->
    build_segments toc_chunks content_chunks points
    = Ok (ranges 0 (map fst (found toc_chunks content_chunks points 0))
                 (List.length content_chunks),
          outline_slices toc_chunks 0
                 (map snd (found toc_chunks content_chunks points 0))).
  Proof.
    intros Hall. unfold build_segments.
    destruct (@split_at_found points (mkSegments [] [] 0 0) Hall)
      as (s' & -> & Hc & Ht).
    now rewrite Hc, Ht.
  Qed.

Lemma found_points (P : nat -> Prop) :
    forall points previous,
      Forall P points ->
      Forall P (map fst (found toc_chunks content_chunks points previous)).
  Proof.
    induction points as [|p rest IH]; intros previous Hall; [constructor|].
    inversion Hall; subst. cbn [found].
    destruct (locate _ _ _ _) as [[i|]|]; cbn [map fst]; auto.
  Qed.

Lemma found_points_sorted :
    forall points previous,
      StronglySorted lt points ->
      StronglySorted lt
        (map fst (found toc_chunks content_chunks points previous)).
  Proof.
    induction points as [|p rest IH]; intros previous Hs; [constructor|].
    inversion Hs; subst. cbn [found].
    destruct (locate _ _ _ _) as [[i|]|]; cbn [map fst]; auto.
    constructor; auto. now apply found_points.
  Qed.

Lemma found_indices :
    forall points previous,
      Forall (fun i => previous <= i < List.length toc_chunks)
             (map snd (found toc_chunks content_chunks points previous))
      /\ StronglySorted le
           (map snd (found toc_chunks content_chunks points previous)).
  Proof.
    induction points as [|p rest IH]; intros previous;
      [split; constructor|].
    cbn [found].
    destruct (locate _ _ _ _) as [[i|]|] eqn:E; cbn [map snd]; auto.
    apply locate_skipn_bounds in E.
    destruct (IH i) as [Hall Hs]. split.
    - constructor; [lia|].
      eapply Forall_impl; [|exact Hall]. cbv beta. intros; lia.
    - constructor; [exact Hs|].
      eapply Forall_impl; [|exact Hall]. cbv beta. intros; lia.
  Qed.

Lemma ranges_length (to : nat) (points : list nat) :
    forall from, List.length (ranges from points to) = S (List.length points).
  Proof. induction points; intros; simpl; auto. Qed.

Lemma outline_slices_length (idxs : list nat) :
    forall previous,
      List.length (outline_slices toc_chunks previous idxs)
      = S (List.length idxs).
  Proof. induction idxs; intros; simpl; auto. Qed.

Lemma ranges_consecutive (to : nat) :
    forall points from,
      StronglySorted lt points ->
      Forall (fun p => from <= p) points ->
      Forall (fun p => p < to) points ->
      from <= to ->
      consecutive from (ranges from points to) to.
  Proof.
    induction points as [|p rest IH]; intros from Hs Hfrom Hto Hle.
    - simpl. auto.
    - inversion Hs as [|? ? Hs' Hlt]; subst.
      inversion Hfrom; subst. inversion Hto; subst.
      cbn [ranges consecutive]. repeat split; auto.
      apply IH; auto; [|lia].
      eapply Forall_impl; [|exact Hlt]. cbv beta. intros; lia.
  Qed.

Lemma consecutive_le :
    forall segments from to, consecutive from segments to -> from <= to.
  Proof.
    induction segments as [|[s e] rest IH]; simpl; intros from to H.
    - lia.
    - destruct H as (-> & Hle & H). apply IH in H. lia.
  Qed.

Lemma consecutive_concat :
    forall segments from to,
      consecutive from segments to ->
      List.concat (map (fun '(s, e) => slice content_chunks s e) segments)
      = slice content_chunks from to.
  Proof.
    induction segments as [|[s e] rest IH]; simpl; intros from to H.
    - subst. now rewrite slice_nil.
    - destruct H as (-> & Hle & H).
      rewrite (IH _ _ H). apply slice_app; [exact Hle|].
      eapply consecutive_le; exact H.
  Qed.

Lemma outline_slices_nonempty :
    forall idxs previous,
      Forall (fun i => previous <= i < List.length toc_chunks) idxs ->
      StronglySorted le idxs ->
      previous < List.length toc_chunks ->
      Forall (fun ts => ts <> []) (outline_slices toc_chunks previous idxs).
  Proof.
    induction idxs as [|i rest IH]; intros previous Hall Hs Hprev.
    - constructor; [|constructor]. intros E.
      apply (f_equal (@List.length _)) in E.
      rewrite length_skipn in E. simpl in E. lia.
    - inversion Hall as [|? ? Hi Hrest]; subst.
      inversion Hs as [|? ? Hs' Hle]; subst.
      cbn [outline_slices]. constructor.
      + intros E. apply (f_equal (@List.length _)) in E.
        rewrite slice_length in E. simpl in E. lia.
      + apply IH; auto; [|lia].
        rewrite Forall_forall in *. intros j Hj.
        specialize (Hrest j Hj). specialize (Hle j Hj). lia.
  Qed.

End Segments.

(* ================================================================= *)
(** ** Segments of a document *)

Lemma build_segments_partition (toc_chunks : list TocChunk)
      (content_chunks : list ContentChunk) (points : list nat) :
  StronglySorted lt points ->
  Forall (fun p => p < List.length content_chunks) points ->
  exists segs tsegs,
    build_segments toc_chunks content_chunks points = Ok (segs, tsegs)
    /\ SegmenterSpec.consecutive 0 segs (List.length content_chunks)
    /\ List.concat (map (fun '(s, e) => slice content_chunks s e) segs)
       = content_chunks
    /\ List.length segs = List.length tsegs.
Proof.
  intros Hs Hall. eexists _, _.
  split; [now apply build_segments_found|].
  assert (Hc : SegmenterSpec.consecutive 0
                 (SegmenterSpec.ranges 0
                    (map fst (SegmenterSpec.found toc_chunks content_chunks
                                points 0))
                    (List.length content_chunks))
                 (List.length content_chunks)).
  { apply ranges_consecutive.
    - now apply found_points_sorted.
    - apply found_points. apply Forall_forall. intros; lia.
    - now apply found_points.
    - lia. }
  split; [exact Hc|]. split.
  - rewrite (consecutive_concat _ _ _ _ Hc). apply slice_all.
  - rewrite ranges_length, outline_slices_length.
    now rewrite !length_map.
Qed.

(** An anchor that is not found again is skipped: the second anchor of
    this document lies, in the outline, before the first one. *)
Example build_segments_skips_an_anchor :
  find_alignment_points SegmenterSpec.outline SegmenterSpec.chunks = [1; 2]
  /\ build_segments SegmenterSpec.outline SegmenterSpec.chunks [1; 2]
     = Ok ([(0, 1); (1, 4)],
           [SegmenterSpec.outline; skipn 1 SegmenterSpec.outline]).
Proof. vm_compute. split; reflexivity. Qed.

(** C6: the content segments built in [process_book_in_segments] are
    half-open ranges that follow one another from 0 to the number of
    chunks, each starting where the previous one ends, and the slices of
    the content they cut, put end to end, are the content; this holds
    whether or not every anchor is found again in the outline. *)
Theorem content_segments_partition (toc_chunks : list TocChunk)
        (content_chunks : list ContentChunk) :
  exists segs tsegs,
    build_segments toc_chunks content_chunks
                   (find_alignment_points toc_chunks content_chunks)
    = Ok (segs, tsegs)
    /\ SegmenterSpec.consecutive 0 segs (List.length content_chunks)
    /\ List.concat (map (fun '(s, e) => slice content_chunks s e) segs)
       = content_chunks
    /\ List.length segs = List.length tsegs.
Proof.
  destruct (find_alignment_points_sorted toc_chunks content_chunks).
  now apply build_segments_partition.
Qed.

Lemma found_similar (toc_chunks : list TocChunk)
      (content_chunks : list ContentChunk) :
  forall points previous,
    Forall (fun '(p, i) =>
              In p points
              /\ exists t c,
                  nth_error toc_chunks i = Some t
                  /\ nth_error content_chunks p = Some c
                  /\ gt (similar_text (section t) (subsection c)) (8 # 10)
                     = true)
           (SegmenterSpec.found toc_chunks content_chunks points previous).
Proof.
  induction points as [|p rest IH]; intros previous; [constructor|].
  cbn [SegmenterSpec.found].
  assert (Hrest : forall prev,
             Forall (fun '(p0, i) =>
                       In p0 (p :: rest)
                       /\ exists t c,
                           nth_error toc_chunks i = Some t
                           /\ nth_error content_chunks p0 = Some c
                           /\ gt (similar_text (section t) (subsection c))
                                 (8 # 10) = true)
                    (SegmenterSpec.found toc_chunks content_chunks rest prev)).
  { intros prev. eapply Forall_impl; [|apply IH].
    intros [p0 i] [Hin H]. split; [now right|exact H]. }
  destruct (locate _ _ _ _) as [[i|]|] eqn:E; auto.
  constructor; [|apply Hrest].
  split; [now left|].
  pose proof (locate_bounds _ _ _ _ E) as [Hb _].
  destruct (locate_first _ _ _ _ E) as (t & c & Ht & Hc & Hg & _).
  exists t, c. repeat split; auto.
  rewrite nth_error_skipn in Ht.
  now replace (previous + (i - previous)) with i in Ht by lia.
Qed.

(** The first anchor is always found again. *)
Lemma found_nonempty (toc_chunks : list TocChunk)
      (content_chunks : list ContentChunk) :
  find_alignment_points toc_chunks content_chunks <> [] ->
  SegmenterSpec.found toc_chunks content_chunks
    (find_alignment_points toc_chunks content_chunks) 0 <> [].
Proof.
  intros Hne.
  destruct (find_alignment_points toc_chunks content_chunks) as [|p rest] eqn:E;
    [congruence|].
  assert (Hp : In p (find_alignment_points toc_chunks content_chunks))
    by (rewrite E; now left).
  apply find_alignment_points_In in Hp.
  destruct Hp as (c & t & Hc & Ht & Ha).
  unfold anchors in Ha. apply andb_prop in Ha. destruct Ha as [_ Ha].
  apply gt_09_08 in Ha.
  destruct (@locate_finds content_chunks (skipn 0 toc_chunks) 0 p c t Hc Ht Ha)
    as (k & Hk).
  cbn [SegmenterSpec.found]. rewrite Hk. discriminate.
Qed.

(** With at least one anchor, the outline slices are cut at
    the outline indices where the anchors are found again: the first
    slice runs from the start of the outline through the first of these
    indices inclusive, each next one from the previous index through the
    current one inclusive, the last one from the last index to the end of
    the outline; at least one anchor is found again, the indices are in
    the outline and never decrease, and no slice is empty. *)
Lemma document_outline_slices (toc_chunks : list TocChunk)
        (content_chunks : list ContentChunk) :
  find_alignment_points toc_chunks content_chunks <> [] ->
  let found := SegmenterSpec.found toc_chunks content_chunks
                 (find_alignment_points toc_chunks content_chunks) 0 in
  build_segments toc_chunks content_chunks
                 (find_alignment_points toc_chunks content_chunks)
  = Ok (SegmenterSpec.ranges 0 (map fst found) (List.length content_chunks),
        SegmenterSpec.outline_slices toc_chunks 0 (map snd found))
  /\ found <> []
  /\ Forall (fun i => i < List.length toc_chunks) (map snd found)
  /\ StronglySorted le (map snd found)
  /\ Forall (fun '(p, i) =>
               In p (find_alignment_points toc_chunks content_chunks)
               /\ exists t c,
                   nth_error toc_chunks i = Some t
                   /\ nth_error content_chunks p = Some c
                   /\ gt (similar_text (section t) (subsection c)) (8 # 10)
                      = true)
            found
  /\ Forall (fun toc_segment => toc_segment <> [])
            (SegmenterSpec.outline_slices toc_chunks 0 (map snd found)).
Proof.
  intros Hne found.
  destruct (find_alignment_points_sorted toc_chunks content_chunks)
    as [Hs Hall].
  destruct (found_indices toc_chunks content_chunks
              (find_alignment_points toc_chunks content_chunks) 0)
    as [Hidx Hsorted].
  pose proof (found_nonempty _ _ Hne) as Hf.
  split; [now apply build_segments_found|].
  split; [exact Hf|].
  split; [eapply Forall_impl; [|exact Hidx]; cbv beta; intros; lia|].
  split; [exact Hsorted|].
  split; [apply found_similar|].
  apply outline_slices_nonempty; auto.
  fold found in Hidx, Hf.
  destruct found as [|[p i] rest]; [congruence|].
  inversion Hidx; subst. lia.
Qed.

(** C9: when there is at least one anchor, the outline slices are cut at
    the outline indices where the anchors are found again: the first
    slice runs from the start of the outline through the first of these
    indices inclusive, each next one from the previous index through the
    current one inclusive, the last one from the last index to the end of
    the outline; at least one anchor is found again, the indices are in
    the outline and never decrease, and no slice is empty. *)
Theorem outline_slices_shape (toc_chunks : list TocChunk)
        (content_chunks : list ContentChunk) :
  find_alignment_points toc_chunks content_chunks <> [] ->
  let found := SegmenterSpec.found toc_chunks content_chunks
                 (find_alignment_points toc_chunks content_chunks) 0 in
  build_segments toc_chunks content_chunks
                 (find_alignment_points toc_chunks content_chunks)
  = Ok (SegmenterSpec.ranges 0 (map fst found) (List.length content_chunks),
        SegmenterSpec.outline_slices toc_chunks 0 (map snd found))
  /\ found <> []
  /\ Forall (fun i => i < List.length toc_chunks) (map snd found)
  /\ StronglySorted le (map snd found)
  /\ Forall (fun '(p, i) =>
               In p (find_alignment_points toc_chunks content_chunks)
               /\ exists t c,
                   nth_error toc_chunks i = Some t
                   /\ nth_error content_chunks p = Some c
                   /\ gt (similar_text (section t) (subsection c)) (8 # 10)
                      = true)
            found
  /\ Forall (fun toc_segment => toc_segment <> [])
            (SegmenterSpec.outline_slices toc_chunks 0 (map snd found)).
Proof. apply document_outline_slices. Qed.

Lemma outline_slices_shape_witness :
  Forall (fun toc_segment => toc_segment <> [])
         (SegmenterSpec.outline_slices Scenario.outline 0
            (map snd (SegmenterSpec.found Scenario.outline Scenario.chunks
                        (find_alignment_points Scenario.outline
                           Scenario.chunks) 0))).
Proof.
  apply (outline_slices_shape Scenario.outline Scenario.chunks).
  vm_compute. discriminate.
Defined.

(* ================================================================= *)
(** ** The whole document *)

Lemma map_fst_combine {A B : Type} :
  forall (l : list A) (l' : list B),
    List.length l = List.length l' -> map fst (combine l l') = l.
Proof.
  induction l as [|x l IH]; intros [|y l'] H; try discriminate; auto.
  simpl. f_equal. apply IH. now inversion H.
Qed.

Lemma process_segments_run (oracle : Oracle) (toc_chunks : list TocChunk)
      (content_chunks : list ContentChunk) :
  forall segments results w,
    Forall (fun x => snd x <> [] /\ incl (snd x) toc_chunks) segments ->
    exists recs w',
      process_segments oracle content_chunks segments results w
      = (Ok (results ++ recs), w')
      /\ map chunk_of recs
         = List.concat (map (fun '(s, e) => slice content_chunks s e)
                            (map fst segments))
      /\ Forall (labelled_from toc_chunks) recs
      /\ requests w' = requests w + List.length recs
      /\ files w' = files w.
Proof.
  induction segments as [|[[s e] toc_segment] rest IH];
    intros results w Hall.
  - exists [], w. cbn. rewrite app_nil_r. repeat split; auto.
  - inversion Hall as [|? ? [Hne Hincl] Hrest]; subst. cbn [snd] in *.
    cbn [process_segments].
    destruct (@classify_segment oracle (slice content_chunks s e) toc_segment
                results w Hne)
      as (cursor' & recs1 & w1 & Hrun & Hmap & Hlab & Hreq & Hfiles).
    unfold bind. rewrite Hrun. cbn [snd].
    destruct (IH (results ++ recs1) w1 Hrest)
      as (recs2 & w' & -> & Hmap2 & Hlab2 & Hreq2 & Hfiles2).
    exists (recs1 ++ recs2), w'. repeat split.
    + now rewrite app_assoc.
    + cbn [map fst List.concat]. now rewrite map_app, Hmap, Hmap2.
    + apply Forall_app. split; [|exact Hlab2].
      eapply Forall_impl; [|exact Hlab].
      intros r (t & Ht & Hr). exists t. split; [now apply Hincl|exact Hr].
    + rewrite Hreq2, Hreq, length_app.
      rewrite <- Hmap, length_map. lia.
    + congruence.
Qed.

Lemma outline_slices_incl (toc_chunks : list TocChunk) :
  forall idxs previous,
    Forall (fun ts => incl ts toc_chunks)
           (SegmenterSpec.outline_slices toc_chunks previous idxs).
Proof.
  induction idxs as [|i rest IH]; intros previous; cbn; constructor.
  - intros t. apply In_skipn.
  - constructor.
  - intros t. apply slice_In.
  - apply IH.
Qed.

(** A document with at least one anchor: the engine returns, without
    raising, one record per content chunk, in the order of the chunks,
    each made from its chunk and labelled from the outline, after one
    request per chunk and without writing any file. *)
Lemma process_book_run (oracle : Oracle) (toc_chunks : list TocChunk)
      (content_chunks : list ContentChunk) (w : World) :
  find_alignment_points toc_chunks content_chunks <> [] ->
  exists recs w',
    process_book_in_segments oracle toc_chunks content_chunks w
    = (Ok recs, w')
    /\ map chunk_of recs = content_chunks
    /\ Forall (labelled_from toc_chunks) recs
    /\ requests w' = requests w + List.length content_chunks
    /\ files w' = files w.
Proof.
  intros Hne.
  destruct (document_outline_slices _ _ Hne)
    as (Hbuild & _ & _ & _ & _ & Hnonempty).
  destruct (find_alignment_points_sorted toc_chunks content_chunks)
    as [Hsorted Hbelow].
  destruct (build_segments_partition toc_chunks content_chunks Hsorted Hbelow)
    as (segs & tsegs & Hbuild' & _ & Hconcat & Hlen).
  rewrite Hbuild in Hbuild'. inversion Hbuild' as [[Hsegs Htsegs]].
  rewrite Htsegs in Hnonempty.
  unfold process_book_in_segments.
  destruct (find_alignment_points toc_chunks content_chunks) as [|p ps] eqn:E;
    [congruence|].
  rewrite Hbuild, Hsegs, Htsegs. unfold bind, lift. cbn [fst snd].
  destruct (@process_segments_run oracle toc_chunks content_chunks
              (combine segs tsegs) [] w)
    as (recs & w' & Hrun & Hmap & Hlab & Hreq & Hfiles).
  - apply Forall_forall. intros [se ts] Hin. cbn [snd].
    apply in_combine_r in Hin. split.
    + rewrite Forall_forall in Hnonempty. now apply Hnonempty.
    + pose proof (outline_slices_incl toc_chunks
                    (map snd (SegmenterSpec.found toc_chunks content_chunks
                                (p :: ps) 0)) 0) as Hi.
      rewrite Htsegs in Hi. rewrite Forall_forall in Hi. now apply Hi.
  - exists recs, w'. rewrite Hrun. cbn [app].
    rewrite (map_fst_combine _ _ Hlen), Hconcat in Hmap.
    repeat split; auto.
    rewrite Hreq. f_equal. now rewrite <- Hmap, length_map.
Qed.

(** C1: for a document with at least one anchor (its outline and its
    content are then not empty), whatever the model answers,
    [process_book_in_segments] returns as many records as there are
    content chunks; the wrapper around the model always returns at least
    one option on a window that is not empty. *)
Theorem one_record_per_chunk (oracle : Oracle) (toc_chunks : list TocChunk)
        (content_chunks : list ContentChunk) (w : World) :
  find_alignment_points toc_chunks content_chunks <> [] ->
  toc_chunks <> [] /\ content_chunks <> []
  /\ (forall c segment_content i window w1,
         window <> [] ->
         exists m ms w2,
           match_content_to_toc oracle c segment_content i window w1
           = (Ok (m :: ms), w2) /\ In m window)
  /\ exists merged_results w',
      process_book_in_segments oracle toc_chunks content_chunks w
      = (Ok merged_results, w')
      /\ List.length merged_results = List.length content_chunks.
Proof.
  intros Hne.
  assert (Hin : exists p, In p (find_alignment_points toc_chunks
                                    content_chunks)).
  { destruct (find_alignment_points toc_chunks content_chunks) as [|p ps];
      [congruence|]. exists p. now left. }
  destruct Hin as (p & Hp). apply find_alignment_points_In in Hp.
  destruct Hp as (c & t & Hc & Ht & _).
  split; [intros ->; destruct Ht|].
  split; [intros ->; destruct p; discriminate|].
  split.
  - intros c' seg i window w1 Hw.
    destruct (@match_content_to_toc_ok oracle c' seg i window w1 Hw)
      as (m & ms & w2 & H & Hm & _).
    now exists m, ms, w2.
  - destruct (@process_book_run oracle toc_chunks content_chunks w Hne)
      as (recs & w' & Hrun & Hmap & _).
    exists recs, w'. split; [exact Hrun|].
    now rewrite <- Hmap, length_map.
Qed.

Lemma one_record_per_chunk_witness :
  exists merged_results w',
    process_book_in_segments Scenario.oracle Scenario.outline Scenario.chunks
                             Scenario.w0
    = (Ok merged_results, w')
    /\ List.length merged_results = List.length Scenario.chunks.
Proof.
  apply (one_record_per_chunk Scenario.oracle Scenario.outline Scenario.chunks
                              Scenario.w0).
  vm_compute. discriminate.
Defined.

(** C7: for a document with at least one anchor the k-th record returned
    carries the subsection and the content of the k-th content chunk. *)
Theorem records_follow_content_order (oracle : Oracle)
        (toc_chunks : list TocChunk) (content_chunks : list ContentChunk)
        (w : World) :
  find_alignment_points toc_chunks content_chunks <> [] ->
  exists merged_results w',
    process_book_in_segments oracle toc_chunks content_chunks w
    = (Ok merged_results, w')
    /\ List.length merged_results = List.length content_chunks
    /\ forall k c,
         nth_error content_chunks k = Some c ->
         exists r,
           nth_error merged_results k = Some r
           /\ Subsection r = subsection c
           /\ Content r = content c.
Proof.
  intros Hne.
  destruct (@process_book_run oracle toc_chunks content_chunks w Hne)
    as (recs & w' & Hrun & Hmap & _).
  exists recs, w'. split; [exact Hrun|]. split.
  - now rewrite <- Hmap, length_map.
  - intros k c Hk. rewrite <- Hmap, nth_error_map in Hk.
    destruct (nth_error recs k) as [r|]; [|discriminate].
    exists r. inversion Hk. now repeat split.
Qed.

Lemma records_follow_content_order_witness :
  exists merged_results w',
    process_book_in_segments Scenario.oracle Scenario.outline Scenario.chunks
                             Scenario.w0
    = (Ok merged_results, w')
    /\ List.length merged_results = List.length Scenario.chunks
    /\ forall k c,
         nth_error Scenario.chunks k = Some c ->
         exists r,
           nth_error merged_results k = Some r
           /\ Subsection r = subsection c
           /\ Content r = content c.
Proof.
  apply (records_follow_content_order Scenario.oracle Scenario.outline
                                      Scenario.chunks Scenario.w0).
  vm_compute. discriminate.
Defined.

(** C10: with the cursor on an index of the outline slice, the option
    taken for the current chunk belongs to the window, hence to the
    slice, so [toc_segment.index] finds it and the new cursor is again an
    index of the slice; along the loop over a segment the cursor is
    therefore always an index of the slice, and every record returned for
    a document has the chapter and the section of an entry of its
    outline. *)
Theorem cursor_update_succeeds :
  (forall oracle segment_content toc_segment i c cursor w,
      nth_error segment_content i = Some c ->
      cursor < List.length toc_segment ->
      exists matched_toc others w' matched_index,
        match_content_to_toc oracle c segment_content i
          (get_toc_window toc_segment (Z.of_nat cursor) window_size) w
        = (Ok (matched_toc :: others), w')
        /\ In matched_toc
              (get_toc_window toc_segment (Z.of_nat cursor) window_size)
        /\ In matched_toc toc_segment
        /\ index toc_segment matched_toc = Some matched_index
        /\ matched_index < List.length toc_segment)
  /\ (forall oracle segment_content toc_segment n w,
         toc_segment <> [] ->
         n <= List.length segment_content ->
         exists cursor results w',
           classify oracle segment_content toc_segment (seq 0 n) 0 [] w
           = (Ok (cursor, results), w')
           /\ cursor < List.length toc_segment)
  /\ (forall oracle toc_chunks content_chunks w merged_results w',
         process_book_in_segments oracle toc_chunks content_chunks w
         = (Ok merged_results, w') ->
         Forall (labelled_from toc_chunks) merged_results).
Proof.
  split; [|split].
  - intros oracle segment_content toc_segment i c cursor w Hc Hcur.
    destruct (@classify_step oracle segment_content toc_segment i [] cursor
                [] w c Hc Hcur)
      as (m & ms & w' & k & Hm & Hin & Hk & Hlt & _).
    exists m, ms, w', k. repeat split; auto.
    eapply get_toc_window_In; exact Hin.
  - intros oracle segment_content toc_segment n w Hne Hn.
    destruct (@classify_run oracle segment_content toc_segment (seq 0 n) 0
                [] w)
      as (cursor & recs & w' & Hrun & Hcur & _).
    + destruct toc_segment; [congruence|simpl; lia].
    + apply Forall_forall. intros i Hi. apply in_seq in Hi. lia.
    + now exists cursor, ([] ++ recs), w'.
  - intros oracle toc_chunks content_chunks w merged_results w' Hrun.
    destruct (find_alignment_points toc_chunks content_chunks) as [|p ps] eqn:E.
    + unfold process_book_in_segments in Hrun. rewrite E in Hrun.
      inversion Hrun; subst. constructor.
    + destruct (@process_book_run oracle toc_chunks content_chunks w)
        as (recs & w2 & Hrun' & _ & Hlab & _); [congruence|].
      rewrite Hrun in Hrun'. inversion Hrun'; subst. exact Hlab.
Qed.

Lemma cursor_update_succeeds_witness :
  exists matched_toc others w' matched_index,
    match_content_to_toc Scenario.oracle (mkContent "DNA basics" "...")
      Scenario.chunks 1
      (get_toc_window Scenario.outline (Z.of_nat 2) window_size) Scenario.w0
    = (Ok (matched_toc :: others), w')
    /\ In matched_toc
          (get_toc_window Scenario.outline (Z.of_nat 2) window_size)
    /\ In matched_toc Scenario.outline
    /\ index Scenario.outline matched_toc = Some matched_index
    /\ matched_index < List.length Scenario.outline.
Proof.
  apply (proj1 cursor_update_succeeds Scenario.oracle Scenario.chunks
               Scenario.outline 1 (mkContent "DNA basics" "...") 2
               Scenario.w0).
  - reflexivity.
  - vm_compute. lia.
Defined.

(* ================================================================= *)
(** ** A document without any anchor *)

Lemma gather_app (api_key : string) :
  forall books1 books2 w,
    gather api_key (books1 ++ books2) w
    = let '(r1, w1) := gather api_key books1 w in
      let '(r2, w2) := gather api_key books2 w1 in
      (r1 ++ r2, w2).
Proof.
  induction books1 as [|bk books1 IH]; intros books2 w.
  - cbn. now destruct (gather api_key books2 w).
  - cbn [app gather].
    destruct (process_single_book _ _ _ _ _ w) as [r w1].
    rewrite IH.
    destruct (gather api_key books1 w1) as [r1 w2].
    now destruct (gather api_key books2 w2).
Qed.

Lemma tally_failed (results1 results2 : list (option string)) :
  tally (results1 ++ None :: results2)
  = (fst (tally (results1 ++ results2)), S (snd (tally (results1 ++ results2)))).
Proof.
  induction results1 as [|[p|] results1 IH]; cbn [app tally].
  - now destruct (tally results2).
  - rewrite IH. now destruct (tally (results1 ++ results2)).
  - rewrite IH. now destruct (tally (results1 ++ results2)).
Qed.

(** C8: when [find_alignment_points] returns no anchor,
    [process_book_in_segments] returns the empty list without sending any
    request or logging anything; [process_single_book] returns [None]
    and writes no file; and in a batch the document adds one to the
    count of failures while the other documents are processed and counted
    as they are without it. *)
Theorem no_anchor_aborts_document (oracle : Oracle) (path api_key : string)
        (toc_chunks : list TocChunk) (content_chunks : list ContentChunk)
        (w : World) :
  find_alignment_points toc_chunks content_chunks = [] ->
  process_book_in_segments oracle toc_chunks content_chunks w = (Ok [], w)
  /\ process_single_book oracle path toc_chunks content_chunks api_key w
     = (None, w)
  /\ forall before after,
       process_all_books api_key
         (before ++ mkBook oracle path toc_chunks content_chunks :: after) w
       = let '((successful, failed), w') :=
           process_all_books api_key (before ++ after) w in
         ((successful, S failed), w').
Proof.
  intros Hnone.
  assert (Hbook : process_book_in_segments oracle toc_chunks content_chunks
                  = ret []).
  { unfold process_book_in_segments. now rewrite Hnone. }
  assert (Hsingle : forall w0,
             process_single_book oracle path toc_chunks content_chunks
                                 api_key w0 = (None, w0)).
  { intros w0. unfold process_single_book, single_book_body.
    destruct (is_nil toc_chunks); [reflexivity|].
    destruct (is_nil content_chunks); [reflexivity|].
    destruct (PyStr.is_empty api_key); [reflexivity|].
    now rewrite Hbook. }
  split; [now rewrite Hbook|]. split; [apply Hsingle|].
  intros before after. unfold process_all_books.
  rewrite !gather_app. cbn [gather book_oracle toc_path book_toc book_content].
  destruct (gather api_key before w) as [r1 w1].
  rewrite Hsingle.
  destruct (gather api_key after w1) as [r2 w2].
  rewrite tally_failed.
  now destruct (tally (r1 ++ r2)).
Qed.

Lemma no_anchor_aborts_document_witness :
  process_single_book Scenario.oracle "book.json" Scenario.outline
    [mkContent "DNA basics" "..."] "key" Scenario.w0
  = (None, Scenario.w0).
Proof.
  apply (no_anchor_aborts_document Scenario.oracle "book.json" "key"
           Scenario.outline [mkContent "DNA basics" "..."] Scenario.w0).
  vm_compute. reflexivity.
Defined.

(* ================================================================= *)
(** * Further properties *)

(** ** The similarity is a number between 0 and 1 *)

Module RatioFacts.

Import Difflib BlockSpec.

Section Columns.

Variables a b : list ascii.

Lemma scan_row_within_b (i blo bhi : nat) (j2len : nat -> nat) :
  (forall j, j2len j <= j + 1 - blo) ->
  forall js nj best nj' best',
    within_b blo bhi best ->
    (forall j, nj j <= j + 1 - blo) ->
    scan_row js i blo bhi j2len nj best = (nj', best') ->
    within_b blo bhi best' /\ forall j, nj' j <= j + 1 - blo.
Proof.
  intros Hprev.
  induction js as [|j js IH]; intros nj best nj' best' Hb Hnj H;
    cbn [scan_row] in H.
  - inversion H; subst. now split.
  - destruct (j <? blo) eqn:Elo; [now apply (IH nj best)|].
    destruct (bhi <=? j) eqn:Ehi; [inversion H; subst; now split|].
    apply Nat.ltb_ge in Elo. apply Nat.leb_gt in Ehi.
    assert (Hk : j2lenget j2len j + 1 <= j + 1 - blo).
    { destruct j as [|j']; cbn [j2lenget]; [lia|].
      specialize (Hprev j'). lia. }
    apply IH in H; auto.
    + destruct best as [[bi bj] bs]. unfold improve.
      destruct (bs <? j2lenget j2len j + 1); [|exact Hb].
      cbn [within_b]. lia.
    + intros j0. unfold store. destruct (j0 =? j) eqn:E; [|apply Hnj].
      apply Nat.eqb_eq in E. now subst.
Qed.

Lemma scan_rows_within_b (blo bhi : nat) :
  forall todo j2len best,
    (forall j, j2len j <= j + 1 - blo) ->
    within_b blo bhi best ->
    within_b blo bhi (scan_rows a b todo blo bhi j2len best).
Proof.
  induction todo as [|i todo IH]; intros j2len best Hprev Hb; [exact Hb|].
  cbn [scan_rows].
  destruct (scan_row (b2j_at a b i) i blo bhi j2len (fun _ => 0) best)
    as [nj' best'] eqn:E.
  apply (@scan_row_within_b i blo bhi j2len Hprev) in E; auto.
  - destruct E. now apply IH.
  - intros j. cbv beta. lia.
Qed.

Lemma extend_left_within_b (alo blo hi : nat) :
  forall n m,
    within_b blo hi m -> within_b blo hi (extend_left a b n alo blo m).
Proof.
  induction n as [|n IH]; intros [[bi bj] bs] Hm; cbn [extend_left]; auto.
  destruct ((alo <? bi) && (blo <? bj) && same_elt a b (bi - 1) (bj - 1))
    eqn:E; auto.
  apply IH. apply andb_prop in E. destruct E as [E _].
  apply andb_prop in E. destruct E as [_ E]. apply Nat.ltb_lt in E.
  cbn [within_b] in *. lia.
Qed.

Lemma extend_right_within_b (blo ahi bhi : nat) :
  forall n m,
    within_b blo bhi m -> within_b blo bhi (extend_right a b n ahi bhi m).
Proof.
  induction n as [|n IH]; intros [[bi bj] bs] Hm; cbn [extend_right]; auto.
  destruct ((bi + bs <? ahi) && (bj + bs <? bhi)
            && same_elt a b (bi + bs) (bj + bs)) eqn:E; auto.
  apply IH. apply andb_prop in E. destruct E as [E _].
  apply andb_prop in E. destruct E as [_ E]. apply Nat.ltb_lt in E.
  cbn [within_b] in *. lia.
Qed.

Lemma find_longest_match_within_b (alo ahi blo bhi : nat) :
  blo <= bhi -> within_b blo bhi (find_longest_match a b alo ahi blo bhi).
Proof.
  intros Hle. unfold find_longest_match.
  pose proof (@scan_rows_within_b blo bhi (seq alo (ahi - alo)) (fun _ => 0)
                (alo, blo, 0)) as H.
  destruct (scan_rows a b (seq alo (ahi - alo)) blo bhi (fun _ => 0)
                      (alo, blo, 0)) as [[bi bj] bs].
  pose proof (@extend_left_within_b alo blo bhi bi (bi, bj, bs)) as H1.
  destruct (extend_left a b bi alo blo (bi, bj, bs)) as [[bi1 bj1] bs1].
  apply extend_right_within_b. apply H1. apply H.
  - intros j. cbv beta. lia.
  - cbn [within_b]. lia.
Qed.

Lemma total_app (l : list Match) (i j k : nat) :
  total (l ++ [(i, j, k)]) = total l + k.
Proof.
  unfold total. induction l as [|x l' IH]; cbn [app fold_right]; [lia|].
  rewrite IH. destruct x as [[i' j'] k']. lia.
Qed.

(** The blocks found never cover more than the queued rows of [a], nor
    more than the queued columns of [b]. *)
Lemma drain_total :
  forall fuel queue acc,
    ranges_ok queue ->
    total (drain a b fuel queue acc) <= total acc + rows queue
    /\ total (drain a b fuel queue acc) <= total acc + columns queue.
Proof.
  induction fuel as [|fuel IH]; intros queue acc Hok; [cbn [drain]; lia|].
  cbn [drain].
  destruct queue as [|[[[alo ahi] blo] bhi] q]; [lia|].
  unfold ranges_ok in Hok.
  inversion Hok as [|? ? Hab Hq]; subst. destruct Hab as [Ha Hb].
  pose proof (@DifflibFacts.find_longest_match_within a b alo ahi blo bhi Ha)
    as Hwa.
  pose proof (@find_longest_match_within_b alo ahi blo bhi Hb) as Hwb.
  destruct (find_longest_match a b alo ahi blo bhi) as [[i j] k].
  cbn [DifflibSpec.within within_b] in Hwa, Hwb.
  cbn [rows columns].
  destruct (k =? 0) eqn:Ek.
  { destruct (IH q acc Hq). lia. }
  destruct ((alo <? i) && (blo <? j)) eqn:E1;
    destruct ((i + k <? ahi) && (j + k <? bhi)) eqn:E2;
    match goal with
    | |- context [drain a b fuel ?q2 ?acc2] =>
        destruct (IH q2 acc2) as [H1 H2];
        [ repeat (constructor; [lia|]); exact Hq
        | rewrite total_app in H1, H2; cbn [rows columns] in H1, H2; lia ]
    end.
Qed.

Lemma matches_le : matches a b <= List.length a /\ matches a b <= List.length b.
Proof.
  unfold matches, get_matching_blocks.
  destruct (@drain_total (queue_weight [(0, List.length a, 0, List.length b)])
              [(0, List.length a, 0, List.length b)] [])
    as [H1 H2].
  - repeat constructor; lia.
  - fold (total (drain a b (queue_weight [(0, Datatypes.length a, 0,
                                           Datatypes.length b)])
                       [(0, Datatypes.length a, 0, Datatypes.length b)] []))
      in *.
    cbn [rows columns total fold_right] in H1, H2. lia.
Qed.

Lemma ratio_range : (0 <= ratio a b <= 1)%Q.
Proof.
  unfold ratio. destruct matches_le as [Ha Hb].
  destruct (List.length a + List.length b =? 0) eqn:E.
  - split; unfold Qle; simpl; lia.
  - apply Nat.eqb_neq in E.
    unfold Qle. cbn [Qnum Qden].
    rewrite <- (positive_nat_Z (Pos.of_nat (List.length a + List.length b))).
    rewrite Nat2Pos.id by exact E.
    split; lia.
Qed.

(** With one of the two sequences empty and the other not, nothing
    matches. *)
Lemma ratio_one_empty :
  (a = [] \/ b = []) -> List.length a + List.length b <> 0 ->
  (ratio a b == 0)%Q.
Proof.
  intros Hempty Hne. unfold ratio.
  destruct matches_le as [Ha Hb].
  assert (H0 : matches a b = 0).
  { destruct Hempty as [-> | ->]; simpl in *; lia. }
  rewrite H0.
  destruct (List.length a + List.length b =? 0) eqn:E;
    [apply Nat.eqb_eq in E; lia|].
  reflexivity.
Qed.

End Columns.

End RatioFacts.

Lemma lower_length (s : string) :
  String.length (PyStr.lower s) = String.length s.
Proof. induction s; simpl; auto. Qed.

Lemma list_ascii_nil (s : string) :
  list_ascii_of_string s = [] <-> s = "".
Proof. destruct s; simpl; split; intros; congruence. Qed.

Lemma lower_nil (s : string) : PyStr.lower s = "" <-> s = "".
Proof. destruct s; simpl; split; intros; congruence. Qed.

(** X1: [similar_text] returns a value between 0 and 1, as its
    docstring says; it is 1 for two empty texts and 0 when exactly one of
    the two texts is empty. *)
Theorem similar_text_range :
  (forall text1 text2, (0 <= similar_text text1 text2 <= 1)%Q)
  /\ similar_text "" "" = 1%Q
  /\ (forall text, text <> "" ->
        (similar_text text "" == 0)%Q /\ (similar_text "" text == 0)%Q).
Proof.
  split; [|split].
  - intros. apply RatioFacts.ratio_range.
  - reflexivity.
  - intros text Hne.
    assert (Hl : list_ascii_of_string (PyStr.lower text) <> []).
    { intros E. apply (proj1 (list_ascii_nil _)) in E.
      apply (proj1 (lower_nil _)) in E. exact (Hne E). }
    unfold similar_text. cbn [PyStr.lower list_ascii_of_string].
    destruct (list_ascii_of_string (PyStr.lower text)) as [|c l];
      [congruence|].
    split; apply RatioFacts.ratio_one_empty;
      try (now right); try (now left); cbn [List.length]; lia.
Qed.

Lemma similar_text_range_witness :
  (similar_text "Intro" "" == 0)%Q /\ (similar_text "" "Intro" == 0)%Q.
Proof.
  apply (proj2 (proj2 similar_text_range) "Intro"). discriminate.
Defined.

(* ================================================================= *)
(** ** More on [find_alignment_points] *)

(** X2: the alignment points come out strictly increasing, each one is
    an index of the content, and there is none when the outline or the
    content is empty. *)
Theorem find_alignment_points_increasing :
  (forall toc_chunks content_chunks,
      StronglySorted lt (find_alignment_points toc_chunks content_chunks)
      /\ Forall (fun i => i < List.length content_chunks)
                (find_alignment_points toc_chunks content_chunks))
  /\ (forall content_chunks, find_alignment_points [] content_chunks = [])
  /\ (forall toc_chunks, find_alignment_points toc_chunks [] = []).
Proof.
  split; [|split].
  - intros. apply find_alignment_points_sorted.
  - intros content_chunks. rewrite find_alignment_points_filter.
    induction (seq 0 (List.length content_chunks)) as [|i l IH];
      [reflexivity|].
    cbn [filter]. unfold anchored at 1.
    destruct (nth_error content_chunks i); exact IH.
  - reflexivity.
Qed.

Lemma existsb_permutation {A : Type} (f : A -> bool) (l l' : list A) :
  Permutation l l' -> existsb f l = existsb f l'.
Proof.
  induction 1; cbn [existsb]; try congruence.
  now rewrite !orb_assoc, (orb_comm (f y)).
Qed.

(** X3: which chunks are alignment points does not depend on the order
    of the outline entries. *)
Theorem find_alignment_points_outline_order
        (toc_chunks toc_chunks' : list TocChunk)
        (content_chunks : list ContentChunk) :
  Permutation toc_chunks toc_chunks' ->
  find_alignment_points toc_chunks content_chunks
  = find_alignment_points toc_chunks' content_chunks.
Proof.
  intros Hp. rewrite !find_alignment_points_filter.
  apply filter_ext. intros i. unfold anchored.
  destruct (nth_error content_chunks i); [|reflexivity].
  now apply existsb_permutation.
Qed.

Lemma find_alignment_points_outline_order_witness :
  find_alignment_points Scenario.outline Scenario.chunks
  = find_alignment_points (rev Scenario.outline) Scenario.chunks.
Proof.
  apply (@find_alignment_points_outline_order Scenario.outline
           (rev Scenario.outline) Scenario.chunks).
  apply Permutation_rev.
Defined.

(* ================================================================= *)
(** ** More on [get_toc_window] *)

Lemma nth_error_slice {A : Type} (l : list A) (s e k : nat) :
  nth_error (slice l s e) k
  = if k <? e - s then nth_error l (s + k) else None.
Proof.
  unfold slice. rewrite nth_error_firstn.
  destruct (k <? e - s); [apply nth_error_skipn|reflexivity].
Qed.

Lemma nth_error_window (toc_chunks : list TocChunk) (cursor k : nat) :
  nth_error (get_toc_window toc_chunks (Z.of_nat cursor) window_size) k
  = if k <? window_size then nth_error toc_chunks (cursor - 2 + k) else None.
Proof.
  unfold get_toc_window. rewrite slice_clamp, nth_error_slice.
  replace (Z.to_nat (Z.max 0 (Z.of_nat cursor - 2))) with (cursor - 2) by lia.
  now rewrite Nat.add_comm, Nat.add_sub, Nat.add_comm.
Qed.

(** X4: option number [k+1] of the window is the outline entry at
    position [max(0, cursor-2) + k], for [k] below 7; in particular the
    entry under the cursor is always offered, as option 1, 2 or 3. *)
Theorem get_toc_window_options (toc_chunks : list TocChunk) (cursor : nat) :
  (forall k,
      nth_error (get_toc_window toc_chunks (Z.of_nat cursor) window_size) k
      = if k <? 7 then nth_error toc_chunks (cursor - 2 + k) else None)
  /\ nth_error (get_toc_window toc_chunks (Z.of_nat cursor) window_size)
               (Nat.min cursor 2)
     = nth_error toc_chunks cursor.
Proof.
  split.
  - intros k. apply nth_error_window.
  - rewrite nth_error_window. unfold window_size.
    replace (Nat.min cursor 2 <? 7) with true
      by (symmetry; apply Nat.ltb_lt; lia).
    f_equal. lia.
Qed.

(* ================================================================= *)
(** ** How far the cursor moves in one turn *)

Lemma index_first (toc_segment : list TocChunk) (m : TocChunk) :
  forall k,
    index toc_segment m = Some k ->
    (exists t, nth_error toc_segment k = Some t /\ obj t = obj m)
    /\ forall p t, nth_error toc_segment p = Some t -> obj t = obj m ->
                   k <= p.
Proof.
  induction toc_segment as [|t0 rest IH]; intros k H; [discriminate|].
  cbn [index] in H. unfold same_object in H.
  destruct (obj t0 =? obj m) eqn:E.
  - inversion H; subst. apply Nat.eqb_eq in E. split.
    + now exists t0.
    + intros; lia.
  - apply Nat.eqb_neq in E.
    destruct (index rest m) as [k'|] eqn:Hk; [|discriminate].
    inversion H; subst. destruct (IH k' eq_refl) as [(t & Ht & Ho) Hmin].
    split.
    + now exists t.
    + intros [|p] t' Hp Ho'; simpl in Hp.
      * inversion Hp; subst. contradiction.
      * specialize (Hmin p t' Hp Ho'). lia.
Qed.

Lemma nth_error_same_obj (toc_segment : list TocChunk) (p k : nat)
      (t t' : TocChunk) :
  NoDup (map obj toc_segment) ->
  nth_error toc_segment p = Some t ->
  nth_error toc_segment k = Some t' ->
  obj t = obj t' -> p = k.
Proof.
  intros Hnd Hp Hk Ho.
  apply (proj1 (NoDup_nth_error (map obj toc_segment)) Hnd).
  - rewrite length_map. apply nth_error_Some. congruence.
  - rewrite !nth_error_map, Hp, Hk. simpl. now rewrite Ho.
Qed.

(** X5: in one turn of the loop the cursor goes to a position at most 6
    past [max(0, cursor-2)], so it advances by at most 4 once it is past
    the second entry; when the entries of the slice are distinct objects
    (as [load_toc] makes them) it also goes back by at most 2 and lands on
    the entry whose labels were put in the record. *)
Theorem cursor_moves_within_window
        (oracle : Oracle) (segment_content : list ContentChunk)
        (toc_segment : list TocChunk) (i : nat) (todo : list nat)
        (cursor : nat) (results : list MergedRecord) (w : World)
        (c : ContentChunk) :
  nth_error segment_content i = Some c ->
  cursor < List.length toc_segment ->
  exists matched_toc w' matched_index,
    classify oracle segment_content toc_segment (i :: todo) cursor results w
    = classify oracle segment_content toc_segment todo matched_index
               (results ++ [merge matched_toc c]) w'
    /\ matched_index <= cursor - 2 + 6
    /\ (NoDup (map obj toc_segment) ->
        cursor - 2 <= matched_index
        /\ nth_error toc_segment matched_index = Some matched_toc).
Proof.
  intros Hc Hcur.
  destruct (@classify_step oracle segment_content toc_segment i todo cursor
              results w c Hc Hcur)
    as (m & ms & w' & k & _ & Hin & Hk & _ & _ & _ & Hstep).
  exists m, w', k. split; [exact Hstep|].
  apply In_nth_error in Hin. destruct Hin as (q & Hq).
  rewrite nth_error_window in Hq.
  destruct (q <? window_size) eqn:Eq; [|discriminate].
  apply Nat.ltb_lt in Eq. unfold window_size in Eq.
  destruct (index_first _ _ Hk) as [(t & Ht & Ho) Hmin].
  split.
  - specialize (Hmin _ _ Hq eq_refl). lia.
  - intros Hnd.
    assert (Hpos : cursor - 2 + q = k)
      by (eapply nth_error_same_obj; eauto).
    split; [lia|]. now rewrite <- Hpos.
Qed.

Lemma cursor_moves_within_window_witness :
  exists matched_toc w' matched_index,
    classify Scenario.oracle Scenario.chunks Scenario.outline [1] 0 []
             Scenario.w0
    = classify Scenario.oracle Scenario.chunks Scenario.outline []
               matched_index ([] ++ [merge matched_toc
                                       (mkContent "DNA basics" "...")]) w'
    /\ matched_index <= 0 - 2 + 6
    /\ (NoDup (map obj Scenario.outline) ->
        0 - 2 <= matched_index
        /\ nth_error Scenario.outline matched_index = Some matched_toc).
Proof.
  apply (@cursor_moves_within_window Scenario.oracle Scenario.chunks
           Scenario.outline 1 [] 0 [] Scenario.w0
           (mkContent "DNA basics" "...")).
  - reflexivity.
  - vm_compute. lia.
Defined.

(* ================================================================= *)
(** ** More on [match_content_to_toc] *)

Lemma select_empty (indices : list Z) :
  indices <> [] -> select [] indices = Raise IndexError.
Proof.
  destruct indices as [|idx rest]; [congruence|]. intros _.
  cbn [select List.length].
  destruct ((0 <=? idx)%Z && (idx <? Z.of_nat 0)%Z) eqn:E; [|reflexivity].
  apply andb_prop in E. destruct E as [E1 E2].
  apply Z.leb_le in E1. apply Z.ltb_lt in E2. lia.
Qed.

(** X6: with an empty window [match_content_to_toc] raises [IndexError]
    whatever the model answers: the request is sent, the handler of
    [except Exception] logs the failure and then raises itself on
    [toc_options[0]]. *)
Theorem match_content_to_toc_empty_window
        (oracle : Oracle) (content : ContentChunk)
        (content_list : list ContentChunk) (current_index : nat) (w : World) :
  exists w' entries,
    match_content_to_toc oracle content content_list current_index [] w
    = (Raise IndexError, w')
    /\ requests w' = S (requests w)
    /\ files w' = files w
    /\ log w' = log w ++ entries ++ [(ERROR, api_call_failed)].
Proof.
  unfold match_content_to_toc, try_except, bind, ask.
  destruct (oracle _ _) as [|text].
  - eexists _, []. cbn. repeat split.
  - destruct (parse_indices text) as [indices|] eqn:E.
    + apply parse_indices_nonempty in E.
      unfold lift. rewrite (select_empty E).
      eexists _, []. cbn. repeat split.
    + eexists _, [(ERROR, invalid_number_format)]. cbn.
      repeat split. now rewrite <- app_assoc.
Qed.

Lemma skipn_nth_error {A : Type} (l : list A) :
  forall n,
    skipn n l = match nth_error l n with
                | Some x => x :: skipn (S n) l
                | None => []
                end.
Proof.
  induction l as [|y l IH]; intros [|n]; try reflexivity.
  cbn [skipn nth_error]. rewrite IH. now destruct (nth_error l n).
Qed.

Lemma lookahead_nth_error (content_list : list ContentChunk)
      (current_index d : nat) :
  lookahead content_list current_index d
  = match nth_error content_list (current_index + d) with
    | Some c => [c]
    | None => []
    end.
Proof.
  unfold lookahead.
  destruct (nth_error content_list (current_index + d)) eqn:E.
  - assert (Hlt : current_index + d < List.length content_list)
      by (apply nth_error_Some; congruence).
    replace (_ <? _)%Z with true; [reflexivity|].
    symmetry. apply Z.ltb_lt. lia.
  - apply nth_error_None in E.
    destruct (_ <? _)%Z eqn:E'; [|reflexivity].
    apply Z.ltb_lt in E'. lia.
Qed.

(** X7: the blocks put in a request are the current chunk and the next
    two chunks of the same segment, as far as they exist: the slice
    [content_list[current_index : current_index+3]]. *)
Theorem request_blocks (content : ContentChunk)
        (content_list : list ContentChunk) (current_index : nat) :
  nth_error content_list current_index = Some content ->
  [content] ++ lookahead content_list current_index 1
            ++ lookahead content_list current_index 2
  = slice content_list current_index (current_index + 3)
  /\ List.length ([content] ++ lookahead content_list current_index 1
                            ++ lookahead content_list current_index 2)
     = Nat.min 3 (List.length content_list - current_index).
Proof.
  intros Hc.
  assert (Heq : [content] ++ lookahead content_list current_index 1
                ++ lookahead content_list current_index 2
                = slice content_list current_index (current_index + 3)).
  { unfold slice. rewrite Nat.add_comm, Nat.add_sub.
    rewrite !lookahead_nth_error.
    rewrite (skipn_nth_error content_list current_index), Hc.
    cbn [firstn app].
    rewrite (skipn_nth_error content_list (S current_index)).
    replace (current_index + 1) with (S current_index) by lia.
    replace (current_index + 2) with (S (S current_index)) by lia.
    destruct (nth_error content_list (S current_index)) as [c1|] eqn:E1.
    - cbn [firstn app].
      rewrite (skipn_nth_error content_list (S (S current_index))).
      destruct (nth_error content_list (S (S current_index))); reflexivity.
    - assert (E2 : nth_error content_list (S (S current_index)) = None).
      { apply nth_error_None. apply nth_error_None in E1. lia. }
      now rewrite E2. }
  split; [exact Heq|].
  rewrite Heq, slice_length. lia.
Qed.

Lemma request_blocks_witness :
  [mkContent "Cell Structure" "..."] ++ lookahead Scenario.chunks 0 1
                                     ++ lookahead Scenario.chunks 0 2
  = slice Scenario.chunks 0 (0 + 3).
Proof.
  apply (@request_blocks (mkContent "Cell Structure" "...")
                         Scenario.chunks 0).
  reflexivity.
Defined.

Lemma repeat_In {A : Type} (x : A) (n : nat) (l : list A) :
  In x l -> Forall (fun t => In t l) (repeat x n).
Proof. intros H. induction n; simpl; constructor; auto. Qed.

(** What the wrapper returns and does on a window that is not empty. *)
Lemma match_content_to_toc_results
      (oracle : Oracle) (content : ContentChunk)
      (content_list : list ContentChunk) (current_index : nat)
      (window : list TocChunk) (w : World) :
  window <> [] ->
  exists results w',
    match_content_to_toc oracle content content_list current_index window w
    = (Ok results, w')
    /\ results <> []
    /\ Forall (fun t => In t window) results
    /\ requests w' = S (requests w)
    /\ files w' = files w
    /\ EngineSpec.logged_errors w w' 1.
Proof.
  intros Hne. destruct window as [|first rest]; [congruence|].
  rewrite match_content_to_toc_eq.
  assert (Hfirst : In first (first :: rest)) by now left.
  destruct (oracle _ _) as [|text].
  - eexists _, _. split; [reflexivity|].
    repeat split; try discriminate.
    + now apply repeat_In.
    + exists [(ERROR, api_call_failed)]. split; [reflexivity|].
      split; [repeat constructor|cbn; lia].
  - destruct (parse_indices text) as [indices|] eqn:E.
    + eexists _, _. split; [reflexivity|]. repeat split.
      * apply parse_indices_nonempty in E.
        destruct indices; [congruence|discriminate].
      * apply Forall_forall. intros t Ht. apply in_map_iff in Ht.
        destruct Ht as (idx & <- & _). now apply choose_In.
      * exists []. split; [reflexivity|]. split; [constructor|cbn; lia].
    + eexists _, _. split; [reflexivity|].
      repeat split; try discriminate.
      * now apply repeat_In.
      * exists [(ERROR, invalid_number_format)]. split; [reflexivity|].
        split; [repeat constructor|cbn; lia].
Qed.

(** X8: on a window that is not empty [match_content_to_toc] sends one
    request, writes no file, logs at most one entry (an error), and
    returns at least one option, every one of them taken from the window. *)
Theorem match_content_to_toc_from_window
        (oracle : Oracle) (content : ContentChunk)
        (content_list : list ContentChunk) (current_index : nat)
        (window : list TocChunk) (w : World) :
  window <> [] ->
  exists results w',
    match_content_to_toc oracle content content_list current_index window w
    = (Ok results, w')
    /\ results <> []
    /\ Forall (fun t => In t window) results
    /\ requests w' = S (requests w)
    /\ files w' = files w
    /\ EngineSpec.logged_errors w w' 1.
Proof. apply match_content_to_toc_results. Qed.

Lemma match_content_to_toc_from_window_witness :
  exists results w',
    match_content_to_toc Scenario.oracle (mkContent "DNA basics" "...")
      Scenario.chunks 1 Scenario.outline Scenario.w0
    = (Ok results, w')
    /\ results <> []
    /\ Forall (fun t => In t Scenario.outline) results
    /\ requests w' = S (requests Scenario.w0)
    /\ files w' = files Scenario.w0
    /\ EngineSpec.logged_errors Scenario.w0 w' 1.
Proof.
  apply (@match_content_to_toc_from_window Scenario.oracle
           (mkContent "DNA basics" "...") Scenario.chunks 1
           Scenario.outline Scenario.w0).
  discriminate.
Defined.

(* ================================================================= *)
(** ** What a run of the engine costs *)

Lemma logged_errors_refl (w : World) : EngineSpec.logged_errors w w 0.
Proof.
  exists []. split; [now rewrite app_nil_r|]. split; [constructor|cbn; lia].
Qed.

Lemma logged_errors_trans (w w1 w2 : World) (n m : nat) :
  EngineSpec.logged_errors w w1 n ->
  EngineSpec.logged_errors w1 w2 m ->
  EngineSpec.logged_errors w w2 (n + m).
Proof.
  intros (e1 & H1 & F1 & L1) (e2 & H2 & F2 & L2).
  exists (e1 ++ e2). split; [now rewrite H2, H1, app_assoc|].
  split; [now apply Forall_app|]. rewrite length_app. lia.
Qed.

Lemma classify_log (oracle : Oracle) (segment_content : list ContentChunk)
      (toc_segment : list TocChunk) :
  forall todo cursor results w r w',
    cursor < List.length toc_segment ->
    Forall (fun i => i < List.length segment_content) todo ->
    classify oracle segment_content toc_segment todo cursor results w
    = (r, w') ->
    EngineSpec.logged_errors w w' (List.length todo).
Proof.
  induction todo as [|i todo IH]; intros cursor results w r w' Hcur Htodo H.
  - cbn in H. inversion H; subst. apply logged_errors_refl.
  - inversion Htodo as [|? ? Hi Htodo']; subst.
    destruct (nth_error segment_content i) as [c|] eqn:Hc;
      [|apply nth_error_None in Hc; lia].
    destruct (@classify_step oracle segment_content toc_segment i todo cursor
                results w c Hc Hcur)
      as (m & ms & w1 & k & Hm & _ & _ & Hk & _ & _ & Hstep).
    rewrite Hstep in H.
    destruct (@match_content_to_toc_results oracle c segment_content i
                (get_toc_window toc_segment (Z.of_nat cursor) window_size) w
                (get_toc_window_nonempty _ Hcur))
      as (res & w1' & Hm' & _ & _ & _ & _ & Hlog).
    rewrite Hm in Hm'. inversion Hm'; subst w1'.
    change (List.length (i :: todo)) with (1 + List.length todo).
    eapply logged_errors_trans; [exact Hlog|].
    eapply IH; eauto.
Qed.

Lemma process_segments_log (oracle : Oracle)
      (content_chunks : list ContentChunk) :
  forall segments results w r w',
    Forall (fun x => snd x <> []) segments ->
    process_segments oracle content_chunks segments results w = (r, w') ->
    EngineSpec.logged_errors w w'
      (List.length
         (List.concat (map (fun '(s, e) => slice content_chunks s e)
                           (map fst segments)))).
Proof.
  induction segments as [|[[s e] toc_segment] rest IH];
    intros results w r w' Hall H.
  - cbn in H. inversion H; subst. apply logged_errors_refl.
  - inversion Hall as [|? ? Hne Hrest]; subst. cbn [snd] in Hne.
    cbn [process_segments] in H. unfold bind in H.
    destruct (classify oracle (slice content_chunks s e) toc_segment
                (seq 0 (List.length (slice content_chunks s e))) 0 results w)
      as [r1 w1] eqn:E.
    assert (Hlog : EngineSpec.logged_errors w w1
                     (List.length
                        (seq 0 (List.length (slice content_chunks s e))))).
    { eapply classify_log; [| |exact E].
      - destruct toc_segment; [congruence|simpl; lia].
      - apply Forall_forall. intros i Hi. apply in_seq in Hi. lia. }
    rewrite length_seq in Hlog.
    cbn [map fst List.concat]. rewrite length_app.
    destruct r1 as [a|ex].
    + eapply logged_errors_trans; [exact Hlog|]. eapply IH; eauto.
    + inversion H; subst.
      destruct Hlog as (en & H1 & F1 & L1).
      exists en. repeat split; auto. lia.
Qed.

(** What a run on a document with at least one anchor costs. *)
Lemma process_book_cost (oracle : Oracle) (toc_chunks : list TocChunk)
      (content_chunks : list ContentChunk) (w : World) :
  find_alignment_points toc_chunks content_chunks <> [] ->
  exists merged_results w',
    process_book_in_segments oracle toc_chunks content_chunks w
    = (Ok merged_results, w')
    /\ requests w' = requests w + List.length content_chunks
    /\ files w' = files w
    /\ EngineSpec.logged_errors w w' (List.length content_chunks).
Proof.
  intros Hne.
  destruct (@process_book_run oracle toc_chunks content_chunks w Hne)
    as (recs & w' & Hrun & _ & _ & Hreq & Hfiles).
  exists recs, w'. repeat split; auto.
  destruct (document_outline_slices _ _ Hne)
    as (Hbuild & _ & _ & _ & _ & Hnonempty).
  destruct (find_alignment_points_sorted toc_chunks content_chunks)
    as [Hsorted Hbelow].
  destruct (build_segments_partition toc_chunks content_chunks Hsorted Hbelow)
    as (segs & tsegs & Hbuild' & _ & Hconcat & Hlen).
  rewrite Hbuild in Hbuild'. inversion Hbuild' as [[Hsegs Htsegs]].
  rewrite Htsegs in Hnonempty.
  unfold process_book_in_segments in Hrun.
  destruct (find_alignment_points toc_chunks content_chunks) as [|p ps] eqn:E;
    [congruence|].
  rewrite Hbuild, Hsegs, Htsegs in Hrun. unfold bind, lift in Hrun.
  cbn [fst snd] in Hrun.
  apply process_segments_log in Hrun.
  - now rewrite (map_fst_combine _ _ Hlen), Hconcat in Hrun.
  - apply Forall_forall. intros [se ts] Hin. cbn [snd].
    apply in_combine_r in Hin.
    rewrite Forall_forall in Hnonempty. now apply Hnonempty.
Qed.

(** X9: on a document with at least one anchor
    [process_book_in_segments] sends exactly one request per content
    chunk, writes no file, and logs at most one entry per chunk, all of
    them errors. *)
Theorem one_request_per_chunk (oracle : Oracle) (toc_chunks : list TocChunk)
        (content_chunks : list ContentChunk) (w : World) :
  find_alignment_points toc_chunks content_chunks <> [] ->
  exists merged_results w',
    process_book_in_segments oracle toc_chunks content_chunks w
    = (Ok merged_results, w')
    /\ requests w' = requests w + List.length content_chunks
    /\ files w' = files w
    /\ EngineSpec.logged_errors w w' (List.length content_chunks).
Proof. apply process_book_cost. Qed.

Lemma one_request_per_chunk_witness :
  exists merged_results w',
    process_book_in_segments Scenario.oracle Scenario.outline Scenario.chunks
                             Scenario.w0
    = (Ok merged_results, w')
    /\ requests w' = requests Scenario.w0 + List.length Scenario.chunks
    /\ files w' = files Scenario.w0
    /\ EngineSpec.logged_errors Scenario.w0 w' (List.length Scenario.chunks).
Proof.
  apply (@one_request_per_chunk Scenario.oracle Scenario.outline
           Scenario.chunks Scenario.w0).
  vm_compute. discriminate.
Defined.

(* ================================================================= *)
(** ** A model that never classifies *)

Lemma window_at_start (first : TocChunk) (rest : list TocChunk) :
  exists others,
    get_toc_window (first :: rest) (Z.of_nat 0) window_size = first :: others.
Proof.
  assert (H : nth_error (get_toc_window (first :: rest) (Z.of_nat 0)
                                        window_size) 0 = Some first)
    by (rewrite nth_error_window; reflexivity).
  destruct (get_toc_window (first :: rest) (Z.of_nat 0) window_size)
    as [|t others]; [discriminate|].
  cbn [nth_error] in H. inversion H; subst. now exists others.
Qed.

(** X10: when every classification fails, the cursor stays on the first
    entry of the outline slice and every chunk of the segment gets the
    chapter and the section of that entry. *)
Theorem failing_model_labels_with_first_entry
        (oracle : Oracle) (segment_content : list ContentChunk)
        (first : TocChunk) (rest : list TocChunk) :
  EngineSpec.always_fails oracle ->
  forall todo results w,
    Forall (fun i => i < List.length segment_content) todo ->
    exists recs w',
      classify oracle segment_content (first :: rest) todo 0 results w
      = (Ok (0, results ++ recs), w')
      /\ List.length recs = List.length todo
      /\ Forall (EngineSpec.labelled first) recs.
Proof.
  intros Hfail.
  induction todo as [|i todo IH]; intros results w Htodo.
  - exists [], w. cbn. rewrite app_nil_r. repeat split. constructor.
  - inversion Htodo as [|? ? Hi Htodo']; subst.
    destruct (nth_error segment_content i) as [c|] eqn:Hc;
      [|apply nth_error_None in Hc; lia].
    destruct (window_at_start first rest) as (others & Hwin).
    destruct (@match_content_to_toc_failure oracle c segment_content i first
                others w) as (ms & w1 & Hrun).
    { apply (Hfail (requests w)
                   (mkRequest (first :: others)
                      (FallbackSpec.sent_blocks c segment_content i))). }
    destruct (IH (results ++ [merge first c]) w1 Htodo')
      as (recs & w' & Hrest & Hlen & Hlab).
    exists (merge first c :: recs), w'. repeat split.
    + cbn [classify]. unfold bind at 1, lift, item. rewrite Hc.
      unfold bind at 1. rewrite Hwin, Hrun.
      cbn [index]. unfold same_object. rewrite Nat.eqb_refl.
      rewrite Hrest. now rewrite <- app_assoc.
    + cbn. now rewrite Hlen.
    + constructor; [now split|exact Hlab].
Qed.

Lemma failing_model_labels_with_first_entry_witness :
  exists recs w',
    classify (fun _ _ => Fails) Scenario.chunks
             (mkToc 0 "Ch1" "Intro" :: skipn 1 Scenario.outline) [0; 1] 0 []
             Scenario.w0
    = (Ok (0, [] ++ recs), w')
    /\ List.length recs = List.length [0; 1]
    /\ Forall (EngineSpec.labelled (mkToc 0 "Ch1" "Intro")) recs.
Proof.
  apply (@failing_model_labels_with_first_entry (fun _ _ => Fails)
           Scenario.chunks (mkToc 0 "Ch1" "Intro")
           (skipn 1 Scenario.outline)).
  - intros n req. exact I.
  - repeat constructor.
Defined.

(* ================================================================= *)
(** ** The outline slices cover the outline *)

Lemma outline_slices_cover (toc_chunks : list TocChunk) :
  forall idxs previous,
    Forall (fun i => previous <= i < List.length toc_chunks) idxs ->
    StronglySorted le idxs ->
    forall p t,
      previous <= p -> nth_error toc_chunks p = Some t ->
      exists toc_segment,
        In toc_segment
           (SegmenterSpec.outline_slices toc_chunks previous idxs)
        /\ In t toc_segment.
Proof.
  induction idxs as [|i rest IH]; intros previous Hall Hs p t Hp Ht.
  - exists (skipn previous toc_chunks). split; [now left|].
    apply (nth_error_In _ (p - previous)).
    rewrite nth_error_skipn. now replace (previous + (p - previous)) with p
      by lia.
  - inversion Hall as [|? ? Hi Hrest]; subst.
    inversion Hs as [|? ? Hs' Hle]; subst.
    cbn [SegmenterSpec.outline_slices].
    destruct (Nat.le_gt_cases p i) as [Hpi|Hpi].
    + exists (slice toc_chunks previous (i + 1)). split; [now left|].
      apply (nth_error_In _ (p - previous)).
      rewrite nth_error_slice.
      replace (p - previous <? i + 1 - previous) with true
        by (symmetry; apply Nat.ltb_lt; lia).
      now replace (previous + (p - previous)) with p by lia.
    + destruct (IH i) with (p := p) (t := t)
        as (ts & Hin & Hts); auto; try lia.
      * rewrite Forall_forall in *. intros j Hj.
        specialize (Hrest j Hj). specialize (Hle j Hj). lia.
      * exists ts. split; [now right|exact Hts].
Qed.

(** X11: every outline entry belongs to the outline slice of at least
    one segment (two neighbouring slices share the entry of the anchor
    between them). *)
Theorem toc_segments_cover_outline (toc_chunks : list TocChunk)
        (content_chunks : list ContentChunk) :
  exists content_segments toc_segments,
    build_segments toc_chunks content_chunks
                   (find_alignment_points toc_chunks content_chunks)
    = Ok (content_segments, toc_segments)
    /\ forall t, In t toc_chunks ->
                 exists toc_segment,
                   In toc_segment toc_segments /\ In t toc_segment.
Proof.
  destruct (find_alignment_points_sorted toc_chunks content_chunks)
    as [_ Hbelow].
  eexists _, _. split; [now apply build_segments_found|].
  intros t Ht. apply In_nth_error in Ht. destruct Ht as (p & Hp).
  destruct (found_indices toc_chunks content_chunks
              (find_alignment_points toc_chunks content_chunks) 0)
    as [Hidx Hsorted].
  apply (@outline_slices_cover toc_chunks _ 0 Hidx Hsorted p t);
    [lia|exact Hp].
Qed.

Lemma toc_segments_cover_outline_witness :
  exists content_segments toc_segments,
    build_segments Scenario.outline Scenario.chunks
                   (find_alignment_points Scenario.outline Scenario.chunks)
    = Ok (content_segments, toc_segments)
    /\ exists toc_segment,
        In toc_segment toc_segments
        /\ In (mkToc 2 "Ch2" "Genetics") toc_segment.
Proof.
  destruct (toc_segments_cover_outline Scenario.outline Scenario.chunks)
    as (cs & ts & Hbuild & Hcover).
  exists cs, ts. split; [exact Hbuild|].
  apply Hcover. simpl. tauto.
Defined.


(* ================================================================= *)
(** ** One document, and a batch of documents *)


Lemma is_nil_true {A : Type} (l : list A) : is_nil l = true <-> l = [].
Proof. destruct l; simpl; split; intros; congruence. Qed.









(* ================================================================= *)
(** ** The loaders *)

Lemma load_content_loop_In (items : list json) (c : LoadedContent) :
  In c (load_content_loop items)
  <-> exists item, In item items /\ complete_item item c.
Proof.
  induction items as [|item rest IH]; cbn [load_content_loop].
  - split; [intros []|intros (i & [] & _)].
  - assert (Hskip : (forall e, item <> JDict e) ->
                    (In c (load_content_loop rest)
                     <-> exists i, In i (item :: rest) /\ complete_item i c)).
    { intros Hno. rewrite IH. split.
      - intros (i & Hi & Hc). exists i. split; [now right|exact Hc].
      - intros (i & [<-|Hi] & Hc).
        + destruct Hc as (e & He & _). now apply Hno in He.
        + now exists i. }
    destruct item as [| | | | | |entries];
      try (apply Hskip; intros e; discriminate).
    unfold get.
    destruct (lookup "Subsection" entries) as [s|] eqn:Es;
      destruct (lookup "Content" entries) as [t|] eqn:Et;
      cbn [truthy andb];
      try destruct (truthy s) eqn:Ts; try destruct (truthy t) eqn:Tt;
      cbn [andb In]; rewrite ?IH;
      (split;
       [ intros H;
         repeat match goal with
                | H : _ \/ _ |- _ => destruct H as [H|H]
                end;
         try (destruct H as (i & Hi & Hc); exists i;
              split; [now right|exact Hc]);
         try (subst c; exists (JDict entries); split; [now left|];
              exists entries; cbn; repeat split; auto)
       | intros (i & [<-|Hi] & Hc);
         [ destruct Hc as (e & He & H1 & H2 & H3 & H4);
           inversion He; subst e;
           rewrite Es in H1; rewrite Et in H2;
           try discriminate;
           inversion H1; inversion H2; subst;
           try congruence;
           try (left; now destruct c)
         | try right; now exists i ] ]).
Qed.

Lemma load_content_loop_length (items : list json) :
  List.length (load_content_loop items) <= List.length items.
Proof.
  induction items as [|item rest IH]; cbn [load_content_loop];
    [cbn; lia|].
  destruct item; cbn [List.length]; try lia.
  destruct (_ && _); cbn [List.length]; lia.
Qed.

(** X14: [load_content] keeps exactly the items that are
    objects whose "Subsection" and "Content" are both present and true,
    and drops every other item without raising; an object with a
    "Subsections" list (else a "sections" list) loads as that list, and
    any other object loads as the one-item list that holds it. *)
Theorem load_content_keeps_complete_items :
  (forall items,
      exists chunks,
        load_content (JList items) = Ok chunks
        /\ (forall c, In c chunks
                      <-> exists item, In item items /\ complete_item item c)
        /\ List.length chunks <= List.length items)
  /\ (forall entries items,
         lookup "Subsections" entries = Some (JList items) ->
         load_content (JDict entries) = load_content (JList items))
  /\ (forall entries items,
         lookup "Subsections" entries = None ->
         lookup "sections" entries = Some (JList items) ->
         load_content (JDict entries) = load_content (JList items))
  /\ (forall entries,
         lookup "Subsections" entries = None ->
         lookup "sections" entries = None ->
         load_content (JDict entries) = load_content (JList [JDict entries])).
Proof.
  split; [|split; [|split]].
  - intros items. exists (load_content_loop items).
    split; [reflexivity|]. split.
    + intros c. apply load_content_loop_In.
    + apply load_content_loop_length.
  - intros entries items H. unfold load_content. now rewrite H.
  - intros entries items H1 H2. unfold load_content. now rewrite H1, H2.
  - intros entries H1 H2. unfold load_content. now rewrite H1, H2.
Qed.

Lemma load_content_keeps_complete_items_witness :
  load_content
    (JDict [("Subsections",
             JList [JDict [("Subsection", JStr "Cell Structure");
                           ("Content", JStr "...")];
                    JDict [("Subsection", JStr "Empty"); ("Content", JStr "")]])])
  = load_content
      (JList [JDict [("Subsection", JStr "Cell Structure");
                     ("Content", JStr "...")];
              JDict [("Subsection", JStr "Empty"); ("Content", JStr "")]]).
Proof.
  apply (proj1 (proj2 load_content_keeps_complete_items)).
  reflexivity.
Defined.

Lemma load_toc_loop_objects (items : list json) :
  forallb is_object items = true ->
  exists chunks,
    load_toc_loop items = Ok chunks /\ Forall2 toc_of_item items chunks.
Proof.
  induction items as [|item rest IH]; intros H.
  - exists []. split; [reflexivity|constructor].
  - cbn [forallb] in H. apply andb_prop in H. destruct H as [Hi Hr].
    destruct (IH Hr) as (chunks & Hc & Hf).
    destruct item; try discriminate.
    cbn [load_toc_loop]. rewrite Hc. eexists. split; [reflexivity|].
    constructor; [|exact Hf]. now exists entries.
Qed.

Lemma load_toc_loop_not_object (items : list json) :
  forallb is_object items = false ->
  load_toc_loop items = Raise OtherException.
Proof.
  induction items as [|item rest IH]; intros H; [discriminate|].
  cbn [forallb] in H.
  destruct item; try reflexivity.
  cbn [is_object andb] in H. cbn [load_toc_loop]. now rewrite (IH H).
Qed.

(** X15: [load_toc] never drops an entry: on a list whose items are all
    objects it returns one chunk per item, in order, a missing "Chapter"
    or "Section" being the empty string; it raises as soon as one item is
    not an object; and an object with a "sections" list loads as that
    list. *)
Theorem load_toc_keeps_every_item :
  (forall items,
      forallb is_object items = true ->
      exists chunks,
        load_toc (JList items) = Ok chunks
        /\ Forall2 toc_of_item items chunks
        /\ List.length chunks = List.length items)
  /\ (forall items,
         forallb is_object items = false ->
         load_toc (JList items) = Raise OtherException)
  /\ (forall entries items,
         lookup "sections" entries = Some (JList items) ->
         load_toc (JDict entries) = load_toc (JList items)).
Proof.
  split; [|split].
  - intros items H.
    destruct (load_toc_loop_objects items H) as (chunks & Hc & Hf).
    exists chunks. repeat split; auto.
    symmetry. eapply Forall2_length; exact Hf.
  - intros items H. now apply load_toc_loop_not_object.
  - intros entries items H. unfold load_toc. now rewrite H.
Qed.

Lemma load_toc_keeps_every_item_witness :
  exists chunks,
    load_toc (JList [JDict [("Chapter", JStr "Ch1")]; JDict []]) = Ok chunks
    /\ Forall2 toc_of_item [JDict [("Chapter", JStr "Ch1")]; JDict []] chunks
    /\ List.length chunks = 2.
Proof.
  apply (proj1 load_toc_keeps_every_item
               [JDict [("Chapter", JStr "Ch1")]; JDict []]).
  reflexivity.
Defined.

(** X16: [remove_circular_refs] rebuilds the value it is given: the
    result is equal to the argument. *)
Theorem remove_circular_refs_same (data : json) :
  remove_circular_refs data = data.
Proof.
  induction data using json_induction; try reflexivity.
  - cbn [remove_circular_refs]. f_equal.
    induction H as [|x l Hx Hl IH]; cbn [map]; [reflexivity|].
    now rewrite Hx, IH.
  - cbn [remove_circular_refs]. f_equal.
    induction H as [|[k x] l Hx Hl IH]; cbn [map]; [reflexivity|].
    cbn [snd] in Hx. now rewrite Hx, IH.
Qed.

(* ================================================================= *)
(** ** [get_matching_files] *)

Module PathsFacts.

Import Paths.











End PathsFacts.


